(** * xonsh/commands_cache.py: the commands cache and the background predictors

    A shallow embedding of [CommandsCache] and of the predictors of
    [xonsh/commands_cache.py].  Python strings are [string]s, the dict
    [_cmds_cache] is a [gmap string (option string * bool)], frozensets are
    [gset string], modification times are integers (only their order is
    used), and an exception is a [Raise] result. *)

From Stdlib Require Import ZArith Lia Ascii String.
From stdpp Require Import gmap strings list fin_maps.

Local Open Scope string_scope.
Local Open Scope list_scope.
Local Open Scope Z_scope.

(** ** Python values and results *)

(** The exceptions that the modelled code can raise. *)
Inductive exn : Type :=
  | IndexError
  | OSError
  | SystemExit (code : Z).

Inductive result (A : Type) : Type :=
  | Ok (a : A)
  | Raise (e : exn).
Arguments Ok {A} a.
Arguments Raise {A} e.

Definition bind {A B : Type} (r : result A) (k : A -> result B) : result B :=
  match r with
  | Ok a => k a
  | Raise e => Raise e
  end.

Notation "'let!' x ':=' r 'in' k" := (bind r (fun x => k))
  (at level 10, x name, r at level 100, k at level 200).

(** A cache value [(loc, has_alias)]. *)
Abbreviation entry := (option string * bool)%type.

(** A background predictor: takes the argument tail, returns the prediction. *)
Abbreviation predictor := (list string -> result bool).

(** ** The collaborators *)

(** [builtins.__xonsh_env__] and [builtins.aliases], as far as the cache
    reads them.  [aliases] lists the alias names in iteration order. *)
Record Builtins : Type := {
  PATH : list string;
  PATHEXT : list string;
  aliases : list string
}.

(** The file system calls of the module.  [isdir] is asked when [pathset] is
    built and [st_mtime] later, in the loop; [st_mtime p = None] is an
    [os.stat] that raises.  [executables_in] is [xonsh.tools.executables_in]. *)
Record FileSystem : Type := {
  isdir : string -> bool;
  st_mtime : string -> option Z;
  executables_in : string -> list string;
  isfile : string -> bool;
  abspath : string -> string
}.

(** What the module takes from the platform and from Python: the constant
    [xonsh.platform.ON_WINDOWS], [str.upper], [xonsh.platform.pathbasename],
    [os.path.join], [os.path.basename] and [hash] on frozensets of strings. *)
Class Platform : Type := {
  ON_WINDOWS : bool;
  upper : string -> string;
  pathbasename : string -> string;
  os_path_join : string -> string -> string;
  os_path_basename : string -> string;
  hash : gset string -> Z
}.

(** The instance attributes of [CommandsCache]. *)
Record CommandsCache : Type := {
  _cmds_cache : gmap string entry;
  _path_checksum : option Z;
  _alias_checksum : option Z;
  _path_mtime : Z;
  backgroundable_predictors : gmap string predictor
}.

(** ** Strings *)

(** [str.upper] on ASCII text. *)
Definition ascii_upper (c : ascii) : ascii :=
  let n := nat_of_ascii c in
  if (andb (Nat.leb 97 n) (Nat.leb n 122)) then ascii_of_nat (n - 32) else c.

Fixpoint str_upper (s : string) : string :=
  match s with
  | EmptyString => EmptyString
  | String c s' => String (ascii_upper c) (str_upper s')
  end.

(** [s.startswith(p)] *)
Fixpoint startswith (s p : string) : bool :=
  match p, s with
  | EmptyString, _ => true
  | String a p', String b s' => if Ascii.eqb a b then startswith s' p' else false
  | String _ _, EmptyString => false
  end.

(** Whether a separator occurs in [s]. *)
Fixpoint has_sep (is_sep : ascii -> bool) (s : string) : bool :=
  match s with
  | EmptyString => false
  | String c s' => orb (is_sep c) (has_sep is_sep s')
  end.

(** What follows the last separator of [p], as [os.path.basename] gives it. *)
Fixpoint basename_at (is_sep : ascii -> bool) (p : string) : string :=
  match p with
  | EmptyString => EmptyString
  | String c p' =>
      if has_sep is_sep p' then basename_at is_sep p'
      else if is_sep c then p' else p
  end.

(** Python truthiness of a string. *)
Definition truthy (s : string) : bool :=
  match s with
  | EmptyString => false
  | String _ _ => true
  end.

(** ** Background predictors that need no parser *)

Definition predict_true (args : list string) : result bool := Ok true.

Definition predict_false (args : list string) : result bool := Ok false.

(** ** [SHELL_PREDICTOR_PARSER]: the argparse parser of [predict_shell]

    [argparse.ArgumentParser('shell')] with [-c] ([nargs='?']) and the
    positional [filename] ([nargs='?']).  [add_help] is left at its default,
    so the parser also owns [-h] and [--help].  What follows is
    [ArgumentParser.parse_known_args] of CPython 3.5 for this parser: prefix
    character [-], abbreviations allowed, no [fromfile_prefix_chars], no
    option that looks like a negative number. *)

Inductive action : Type :=
  | HelpAction   (* -h, --help: print the help and exit *)
  | StoreC.      (* -c: store, nargs='?', const None *)

(** [self._option_string_actions], in insertion order. *)
Definition option_string_actions : list (string * action) :=
  [("-h", HelpAction); ("--help", HelpAction); ("-c", StoreC)].

Definition lookup_option (s : string) : option action :=
  match List.find (fun oa => String.eqb (fst oa) s) option_string_actions with
  | Some oa => Some (snd oa)
  | None => None
  end.

(** An attribute of the namespace. *)
Inductive value : Type :=
  | VNone
  | VStr (s : string)
  | VList (l : list string).

Record Namespace : Type := {
  ns_c : value;
  ns_filename : value
}.

(** [s.split('=', 1)] when ['=' in s]. *)
Fixpoint split_eq (s : string) : option (string * string) :=
  match s with
  | EmptyString => None
  | String ch s' =>
      if Ascii.eqb ch "=" then Some (EmptyString, s')
      else match split_eq s' with
           | Some (l, r) => Some (String ch l, r)
           | None => None
           end
  end.

Definition is_digit (ch : ascii) : bool :=
  let n := nat_of_ascii ch in andb (Nat.leb 48 n) (Nat.leb n 57).

(** [\d*] followed by the end of the string, where [$] also matches before
    a final newline. *)
Fixpoint digits_to_end (s : string) : bool :=
  match s with
  | EmptyString => true
  | String ch EmptyString => orb (is_digit ch) (Ascii.eqb ch "010")
  | String ch s' => andb (is_digit ch) (digits_to_end s')
  end.

Definition digits1_to_end (s : string) : bool :=
  match s with
  | String ch s' => andb (is_digit ch) (digits_to_end s')
  | EmptyString => false
  end.

(** [\d*\.\d+$] *)
Fixpoint digits_dot_digits1 (s : string) : bool :=
  match s with
  | EmptyString => false
  | String ch s' =>
      if Ascii.eqb ch "." then digits1_to_end s'
      else andb (is_digit ch) (digits_dot_digits1 s')
  end.

(** [self._negative_number_matcher]: [^-\d+$|^-\d*\.\d+$] *)
Definition negative_number_matcher (s : string) : bool :=
  match s with
  | String "-" s' => orb (digits1_to_end s') (digits_dot_digits1 s')
  | _ => false
  end.

Abbreviation option_tuple := (option action * string * option string)%type.

(** [_get_option_tuples]; [self.error] exits with status 2. *)
Definition _get_option_tuples (option_string : string)
  : result (list option_tuple) :=
  match option_string with
  | String "-" (String "-" _) =>
      let '(option_prefix, explicit_arg) :=
        match split_eq option_string with
        | Some (l, r) => (l, Some r)
        | None => (option_string, None)
        end in
      Ok (flat_map (fun oa =>
            if startswith (fst oa) option_prefix
            then [(Some (snd oa), fst oa, explicit_arg)] else [])
          option_string_actions)
  | String "-" (String ch1 rest) =>
      let option_prefix := option_string in
      let short_option_prefix := String "-" (String ch1 EmptyString) in
      let short_explicit_arg := rest in
      Ok (flat_map (fun oa =>
            if String.eqb (fst oa) short_option_prefix
            then [(Some (snd oa), fst oa, Some short_explicit_arg)]
            else if startswith (fst oa) option_prefix
            then [(Some (snd oa), fst oa, None)] else [])
          option_string_actions)
  | _ => Raise (SystemExit 2)
  end.

(** [_parse_optional]: [None] means that the string is a positional. *)
Definition _parse_optional (arg_string : string)
  : result (option option_tuple) :=
  match arg_string with
  | EmptyString => Ok None
  | String ch0 tl =>
      if negb (Ascii.eqb ch0 "-") then Ok None
      else match lookup_option arg_string with
      | Some a => Ok (Some (Some a, arg_string, None))
      | None =>
          match tl with
          | EmptyString => Ok None
          | _ =>
              let by_eq :=
                match split_eq arg_string with
                | Some (option_string, explicit_arg) =>
                    match lookup_option option_string with
                    | Some a => Some (Some a, option_string, Some explicit_arg)
                    | None => None
                    end
                | None => None
                end in
              match by_eq with
              | Some t => Ok (Some t)
              | None =>
                  let! option_tuples := _get_option_tuples arg_string in
                  match option_tuples with
                  | _ :: _ :: _ => Raise (SystemExit 2)
                  | [t] => Ok (Some t)
                  | [] =>
                      if negative_number_matcher arg_string then Ok None
                      else if has_sep (Ascii.eqb " ") arg_string then Ok None
                      else Ok (Some (None, arg_string, None))
                  end
              end
          end
      end
  end.

(** One letter of [arg_strings_pattern], with the option tuple of an ['O']. *)
Inductive pat : Type :=
  | PA
  | PDash
  | PO (t : option_tuple).

(** The first loop of [_parse_known_args]: everything after [--] is an
    argument. *)
Fixpoint classify (arg_strings : list string) : result (list (pat * string)) :=
  match arg_strings with
  | [] => Ok []
  | arg_string :: rest =>
      if String.eqb arg_string "--"
      then Ok ((PDash, arg_string) :: map (fun a => (PA, a)) rest)
      else
        let! t := _parse_optional arg_string in
        let! r := classify rest in
        Ok ((match t with Some t => PO t | None => PA end, arg_string) :: r)
  end.

(** [arg_strings.remove('--')], which only drops the first one. *)
Fixpoint remove_first_dashes (arg_strings : list string) : list string :=
  match arg_strings with
  | [] => []
  | a :: rest => if String.eqb a "--" then rest else a :: remove_first_dashes rest
  end.

(** [_get_values] of an action with [nargs='?'] whose [const] and [default]
    are [None]. *)
Definition _get_values (arg_strings : list string) : value :=
  match remove_first_dashes arg_strings with
  | [] => VNone
  | [arg_string] => VStr arg_string
  | l => VList l
  end.

(** [take_action] for an optional: the help action prints and exits with
    status 0. *)
Definition take_action (namespace : Namespace) (a : action)
    (argument_strings : list string) : result Namespace :=
  match a with
  | HelpAction => Raise (SystemExit 0)
  | StoreC =>
      Ok {| ns_c := _get_values argument_strings;
            ns_filename := ns_filename namespace |}
  end.

(** [take_action] for the positional [filename]. *)
Definition take_filename (namespace : Namespace)
    (argument_strings : list string) : Namespace :=
  {| ns_c := ns_c namespace; ns_filename := _get_values argument_strings |}.

(** [match_argument(action, selected_patterns)] on what follows the option:
    [-c] takes the next string when it is an argument, the help action
    takes nothing. *)
Definition match_following (a : action) (next : option string) : list string :=
  match a, next with
  | StoreC, Some x => [x]
  | _, _ => []
  end.

(** The [while True] loop of [consume_optional] on an option that came with
    an explicit argument: either the argument belongs to the option, or the
    option takes none, has a single dash, and the argument is read as more
    single-dash flags.  Returns [action_tuples] and whether the last action
    took the string that follows. *)
Fixpoint consume_explicit (a : action) (option_string explicit_arg : string)
    (next : option string) : result (list (action * list string) * bool) :=
  match a with
  | StoreC => Ok ([(StoreC, [explicit_arg])], false)
  | HelpAction =>
      match option_string with
      | String _ (String "-" _) => Raise (SystemExit 2)
      | _ =>
          match explicit_arg with
          | EmptyString => Raise IndexError
          | String ch new_explicit_arg =>
              let option_string' := String "-" (String ch EmptyString) in
              match lookup_option option_string' with
              | None => Raise (SystemExit 2)
              | Some a' =>
                  let! r :=
                    match new_explicit_arg with
                    | EmptyString =>
                        Ok ([(a', match_following a' next)],
                            match match_following a' next with
                            | [] => false
                            | _ => true
                            end)
                    | _ => consume_explicit a' option_string' new_explicit_arg next
                    end in
                  Ok ((HelpAction, []) :: fst r, snd r)
              end
          end
      end
  end.

(** [consume_optional], up to the actions to take. *)
Definition consume_optional (t : option_tuple) (next : option string)
  : result (list (action * list string) * bool) :=
  match t with
  | (None, _, _) => Ok ([], false)
  | (Some a, option_string, Some explicit_arg) =>
      consume_explicit a option_string explicit_arg next
  | (Some a, _, None) =>
      Ok ([(a, match_following a next)],
          match match_following a next with [] => false | _ => true end)
  end.

Fixpoint take_actions (namespace : Namespace)
    (action_tuples : list (action * list string)) : result Namespace :=
  match action_tuples with
  | [] => Ok namespace
  | (a, args) :: rest =>
      let! namespace' := take_action namespace a args in
      take_actions namespace' rest
  end.

(** The main loop of [_parse_known_args] and what follows it, on the strings
    from [start_index] on.  [positionals] tells whether [filename] is still
    to be parsed.  Its pattern [-*A?-*] takes an argument with the [--]
    around it; once it is parsed, strings that are not options are extras.
    An option that the parser does not know is an extra. *)
Fixpoint parse_from (items : list (pat * string)) (namespace : Namespace)
    (positionals : bool) (extras : list string)
  : result (Namespace * list string) :=
  match items with
  | [] =>
      Ok (if positionals then take_filename namespace [] else namespace, extras)
  | (PO t, arg_string) :: rest =>
      let next := match rest with (PA, x) :: _ => Some x | _ => None end in
      let! r := consume_optional t next in
      let! namespace' := take_actions namespace (fst r) in
      let extras' := match t with
                     | (None, _, _) => extras ++ [arg_string]
                     | _ => extras
                     end in
      parse_from (if snd r then match rest with _ :: rest' => rest' | [] => rest end
                  else rest)
                 namespace' positionals extras'
  | (PA, x) :: rest =>
      if positionals then
        match rest with
        | (PDash, d) :: rest' =>
            parse_from rest' (take_filename namespace [x; d]) false extras
        | _ => parse_from rest (take_filename namespace [x]) false extras
        end
      else parse_from rest namespace positionals (extras ++ [x])
  | (PDash, d) :: rest =>
      if positionals then
        match rest with
        | (PA, x) :: rest' =>
            parse_from rest' (take_filename namespace [d; x]) false extras
        | _ => parse_from rest (take_filename namespace [d]) false extras
        end
      else parse_from rest namespace positionals (extras ++ [d])
  end.

(** [parse_known_args]: the defaults of the namespace are [None]. *)
Definition parse_known_args (args : list string)
  : result (Namespace * list string) :=
  let! items := classify args in
  parse_from items {| ns_c := VNone; ns_filename := VNone |} true [].

Definition is_None (v : value) : bool :=
  match v with
  | VNone => true
  | _ => false
  end.

Definition predict_shell (args : list string) : result bool :=
  let! r := parse_known_args args in
  let ns := fst r in
  if andb (is_None (ns_c ns)) (is_None (ns_filename ns))
  then Ok false
  else Ok true.

(** A string that does not start with the prefix character [-]. *)
Definition plain (a : string) : bool :=
  match a with
  | EmptyString => true
  | String ch _ => negb (Ascii.eqb ch "-")
  end.

(** What stands before the first [=] of [s]; all of [s] when it has none. *)
Definition before_eq (s : string) : string :=
  match split_eq s with
  | Some (l, _) => l
  | None => s
  end.

(** The strings that the parser reads as its help option: [-h] with
    anything after it, and a string in two dashes, other than [--] itself,
    whose part before [=] abbreviates [--help]. *)
Definition help_like (a : string) : bool :=
  orb (startswith a "-h")
      (andb (andb (startswith a "--") (negb (String.eqb a "--")))
            (startswith "--help" (before_eq a))).

(** [default_backgroundable_predictors]: the keys of the defaultdict; a
    missing key reads as [predict_true]. *)
Definition default_backgroundable_predictors : gmap string predictor :=
  list_to_map
    [("sh", predict_shell); ("zsh", predict_shell); ("ksh", predict_shell);
     ("csh", predict_shell); ("tcsh", predict_shell); ("bash", predict_shell);
     ("fish", predict_shell); ("xonsh", predict_shell);
     ("ssh", predict_false); ("startx", predict_false); ("vi", predict_false)].

(** ** Concrete platforms and file systems, for running the model *)

Fixpoint ends_with_slash (s : string) : bool :=
  match s with
  | EmptyString => false
  | String c EmptyString => Ascii.eqb c "/"
  | String _ s' => ends_with_slash s'
  end.

(** [os.path.join] and [os.path.basename] of posixpath. *)
Definition posix_join (a b : string) : string :=
  match b with
  | String "/" _ => b
  | _ =>
      match a with
      | EmptyString => b
      | _ => if ends_with_slash a then a +:+ b else a +:+ "/" +:+ b
      end
  end.

Definition posix_basename (p : string) : string := basename_at (Ascii.eqb "/") p.

(** ntpath: the separators, and [os.path.join] of a directory that does not
    end in a separator with a bare file name. *)
Definition nt_sep (c : ascii) : bool :=
  orb (Ascii.eqb c "/") (orb (Ascii.eqb c "\") (Ascii.eqb c ":")).

Definition nt_basename (p : string) : string := basename_at nt_sep p.

Definition nt_join (a b : string) : string := a +:+ "\" +:+ b.

(** A stand-in for [hash] of a frozenset of strings. *)
Definition sample_hash (s : gset string) : Z :=
  fold_right (fun x acc => Z.of_nat (String.length x) + 31 * acc) 7 (elements s).

Definition posix : Platform :=
  {| ON_WINDOWS := false;
     upper := str_upper;
     pathbasename := posix_basename;
     os_path_join := posix_join;
     os_path_basename := posix_basename;
     hash := sample_hash |}.

Definition windows : Platform :=
  {| ON_WINDOWS := true;
     upper := str_upper;
     pathbasename := nt_basename;
     os_path_join := nt_join;
     os_path_basename := nt_basename;
     hash := sample_hash |}.

(** Two directories on a POSIX system, both holding [foo]. *)
Definition posix_fs : FileSystem :=
  {| isdir := fun p => orb (String.eqb p "/a") (String.eqb p "/b");
     st_mtime := fun p =>
       if String.eqb p "/a" then Some 5
       else if String.eqb p "/b" then Some 3 else None;
     executables_in := fun p =>
       if String.eqb p "/a" then ["foo"; "ls"]
       else if String.eqb p "/b" then ["foo"; "vi"] else [];
     isfile := fun _ => false;
     abspath := fun p => posix_join "/home/user" p |}.

Definition posix_builtins : Builtins :=
  {| PATH := ["/a"; "/b"]; PATHEXT := []; aliases := ["ls"; "myalias"] |}.

(** The POSIX sample with another search path, and with a directory that
    [os.stat] fails on. *)
Definition posix_builtins_at (paths : list string) : Builtins :=
  {| PATH := paths; PATHEXT := []; aliases := ["ls"; "myalias"] |}.

Definition posix_fs_without (gone : string) : FileSystem :=
  {| isdir := isdir posix_fs;
     st_mtime := fun p => if String.eqb p gone then None else st_mtime posix_fs p;
     executables_in := executables_in posix_fs;
     isfile := isfile posix_fs;
     abspath := abspath posix_fs |}.

(** Nothing on the search path and no alias. *)
Definition empty_builtins : Builtins :=
  {| PATH := []; PATHEXT := []; aliases := [] |}.

(** [/a] passes [os.path.isdir], and is gone when [os.stat] is called. *)
Definition vanished_fs : FileSystem :=
  {| isdir := fun p => orb (String.eqb p "/a") (String.eqb p "/b");
     st_mtime := fun p => if String.eqb p "/b" then Some 3 else None;
     executables_in := fun p => if String.eqb p "/b" then ["foo"; "vi"] else [];
     isfile := fun _ => false;
     abspath := fun p => posix_join "/home/user" p |}.

(** Two directories on Windows; [local] tells whether the current directory
    holds a file [FOO.EXE]. *)
Definition nt_fs (local : bool) : FileSystem :=
  {| isdir := fun p => orb (String.eqb p "C:\bin") (String.eqb p "C:\tools");
     st_mtime := fun p =>
       if String.eqb p "C:\bin" then Some 5
       else if String.eqb p "C:\tools" then Some 3 else None;
     executables_in := fun p =>
       if String.eqb p "C:\bin" then ["foo.exe"; "vi.exe"]
       else if String.eqb p "C:\tools" then ["foo.exe"] else [];
     isfile := fun p => andb local (String.eqb p "FOO.EXE");
     abspath := fun p => nt_join "C:\cwd" p |}.

Definition nt_builtins (alss : list string) : Builtins :=
  {| PATH := ["C:\bin"; "C:\tools"]; PATHEXT := [".EXE"; ".BAT"]; aliases := alss |}.

(** One directory on a POSIX system that holds a shell and an editor; no
    alias. *)
Definition shell_fs : FileSystem :=
  {| isdir := fun p => String.eqb p "/bin";
     st_mtime := fun p => if String.eqb p "/bin" then Some 7 else None;
     executables_in := fun p =>
       if String.eqb p "/bin" then ["bash"; "vi"] else [];
     isfile := fun _ => false;
     abspath := fun p => posix_join "/home/user" p |}.

Definition shell_builtins : Builtins :=
  {| PATH := ["/bin"]; PATHEXT := []; aliases := [] |}.

(** ** The cache *)

Section CommandsCache.

Context `{pl : Platform}.

(** [CommandsCache.__init__] *)
Definition init : CommandsCache :=
  {| _cmds_cache := ∅;
     _path_checksum := None;
     _alias_checksum := None;
     _path_mtime := -1;
     backgroundable_predictors := default_backgroundable_predictors |}.

Definition is_empty (self : CommandsCache) : bool :=
  Nat.eqb (size (_cmds_cache self)) 0.

Definition get_possible_names (b : Builtins) (name : string) : list string :=
  if ON_WINDOWS then
    let name := upper name in
    map (fun ext => name +:+ ext) (EmptyString :: PATHEXT b)
  else [name].

(** [cmd.upper() if ON_WINDOWS else cmd] *)
Definition cmd_key (cmd : string) : string :=
  if ON_WINDOWS then upper cmd else cmd.

(** [frozenset(x for x in paths if os.path.isdir(x))] *)
Definition pathset (fs : FileSystem) (paths : list string) : gset string :=
  list_to_set (List.filter (isdir fs) paths).

(** The loop over [pathset] that takes the largest [st_mtime]; a failing
    [os.stat] raises. *)
Fixpoint max_mtime_loop (fs : FileSystem) (ps : list string) (max_mtime : Z)
  : result Z :=
  match ps with
  | [] => Ok max_mtime
  | path :: ps' =>
      match st_mtime fs path with
      | None => Raise OSError
      | Some mtime =>
          max_mtime_loop fs ps' (if mtime >? max_mtime then mtime else max_mtime)
      end
  end.

(** [for cmd in executables_in(path): allcmds[key] = (join(path, cmd), cmd in alss)] *)
Definition scan_dir (alss : list string) (path : string)
    (allcmds : gmap string entry) (cmds : list string) : gmap string entry :=
  foldl (fun allcmds cmd =>
           <[cmd_key cmd := (Some (os_path_join path cmd),
                             bool_decide (cmd ∈ alss))]> allcmds)
        allcmds cmds.

(** [for path in reversed(paths): ...] *)
Definition scan_paths (fs : FileSystem) (alss paths : list string)
  : gmap string entry :=
  foldl (fun allcmds path => scan_dir alss path allcmds (executables_in fs path))
        ∅ (reverse paths).

(** [for cmd in alss: if cmd not in allcmds: allcmds[key] = only_alias] *)
Definition add_aliases (alss : list string) (allcmds : gmap string entry)
  : gmap string entry :=
  foldl (fun allcmds cmd =>
           match allcmds !! cmd with
           | None => <[cmd_key cmd := (None, true)]> allcmds
           | Some _ => allcmds
           end)
        allcmds alss.

(** The map that a rebuild publishes. *)
Definition rebuild (fs : FileSystem) (b : Builtins) : gmap string entry :=
  add_aliases (aliases b) (scan_paths fs (aliases b) (PATH b)).

(** The three comparisons that [all_commands] makes. *)
Definition cache_valid (self : CommandsCache) (path_hash al_hash max_mtime : Z)
  : bool :=
  bool_decide (Some path_hash = _path_checksum self)
  && bool_decide (Some al_hash = _alias_checksum self)
  && (max_mtime <=? _path_mtime self).

(** The property [all_commands]: its result, or the exception, and the
    attributes that it leaves behind. *)
Definition all_commands (fs : FileSystem) (b : Builtins) (self : CommandsCache)
  : result (gmap string entry) * CommandsCache :=
  let paths := PATH b in
  let path_hash := hash (pathset fs paths) in
  let alss := aliases b in
  let al_hash := hash (list_to_set alss) in
  let self1 := {| _cmds_cache := _cmds_cache self;
                  _path_checksum := Some path_hash;
                  _alias_checksum := Some al_hash;
                  _path_mtime := _path_mtime self;
                  backgroundable_predictors := backgroundable_predictors self |} in
  match max_mtime_loop fs (elements (pathset fs paths)) 0 with
  | Raise e => (Raise e, self1)
  | Ok max_mtime =>
      if cache_valid self path_hash al_hash max_mtime then
        (Ok (_cmds_cache self),
         {| _cmds_cache := _cmds_cache self;
            _path_checksum := Some path_hash;
            _alias_checksum := Some al_hash;
            _path_mtime := max_mtime;
            backgroundable_predictors := backgroundable_predictors self |})
      else
        let allcmds := rebuild fs b in
        (Ok allcmds,
         {| _cmds_cache := allcmds;
            _path_checksum := Some path_hash;
            _alias_checksum := Some al_hash;
            _path_mtime := max_mtime;
            backgroundable_predictors := backgroundable_predictors self |})
  end.

(** [k in self._cmds_cache] *)
Definition in_cache (self : CommandsCache) (k : string) : bool :=
  bool_decide (is_Some (_cmds_cache self !! k)).

Definition cached_name (b : Builtins) (self : CommandsCache)
    (name : option string) : option string :=
  match name with
  | None => None
  | Some name =>
      let cached := pathbasename name in
      if ON_WINDOWS then
        let keys := get_possible_names b cached in
        List.find (in_cache self) keys
      else Some cached
  end.

Definition lazyin (b : Builtins) (self : CommandsCache) (key : option string)
  : bool :=
  match cached_name b self key with
  | Some k => in_cache self k
  | None => false
  end.

(** [lazyget(key)]; [None] stands for the default. *)
Definition lazyget (b : Builtins) (self : CommandsCache) (key : option string)
  : option entry :=
  match cached_name b self key with
  | Some k => _cmds_cache self !! k
  | None => None
  end.

(** [__contains__] *)
Definition contains (fs : FileSystem) (b : Builtins) (self : CommandsCache)
    (key : option string) : result bool * CommandsCache :=
  let '(r, self') := all_commands fs b self in
  (let! _ := r in Ok (lazyin b self' key), self').

(** [__getitem__] *)
Definition getitem (fs : FileSystem) (b : Builtins) (self : CommandsCache)
    (key : option string) : result (option entry) * CommandsCache :=
  let '(r, self') := all_commands fs b self in
  (let! _ := r in Ok (lazyget b self' key), self').

Definition lazy_locate_binary (fs : FileSystem) (b : Builtins)
    (self : CommandsCache) (name : string) : option string :=
  let possibilities := get_possible_names b name in
  let local_bin :=
    if ON_WINDOWS then
      match List.find (isfile fs) possibilities with
      | Some fn => if truthy fn then Some fn else None
      | None => None
      end
    else None in
  match local_bin with
  | Some local_bin => Some (abspath fs local_bin)
  | None =>
      let cached :=
        match List.find (in_cache self) possibilities with
        | Some cmd => if truthy cmd then Some cmd else None
        | None => None
        end in
      match cached with
      | Some cached =>
          match _cmds_cache self !! cached with
          | Some e => fst e
          | None => None
          end
      | None =>
          if isfile fs name && negb (String.eqb name (os_path_basename name))
          then Some name
          else None
      end
  end.

Definition locate_binary (fs : FileSystem) (b : Builtins)
    (self : CommandsCache) (name : string)
  : result (option string) * CommandsCache :=
  let '(r, self') := all_commands fs b self in
  (let! _ := r in Ok (lazy_locate_binary fs b self' name), self').

(** [self.backgroundable_predictors[name]], a defaultdict of [predict_true] *)
Definition predictor_for (self : CommandsCache) (name : option string)
  : predictor :=
  match name with
  | Some n =>
      match backgroundable_predictors self !! n with
      | Some p => p
      | None => predict_true
      end
  | None => predict_true
  end.

Definition predict_backgroundable (b : Builtins) (self : CommandsCache)
    (cmd : list string) : result bool :=
  match cmd with
  | [] => Raise IndexError
  | cmd0 :: args =>
      let name := cached_name b self (Some cmd0) in
      let '(path, is_alias) :=
        match lazyget b self name with
        | Some e => e
        | None => (None, false)
        end in
      match path with
      | None => Ok true
      | Some _ =>
          if is_alias then Ok true
          else predictor_for self name args
      end
  end.


(** The body of the generator [__iter__] on one item of the dict.  [None] is
    the TypeError of [os.path.basename(None)]. *)
Definition iter_name (item : string * entry) : option string :=
  let '(cmd, (path, is_alias)) := item in
  if andb ON_WINDOWS (negb is_alias) then
    match path with
    | Some p => Some (os_path_basename p)
    | None => None
    end
  else Some cmd.

(** [__iter__], run to its end.  The items come in the order of
    [map_to_list], which is not the insertion order of the dict. *)
Definition __iter__ (fs : FileSystem) (b : Builtins) (self : CommandsCache)
  : result (option (list string)) * CommandsCache :=
  let '(r, self') := all_commands fs b self in
  (let! allcmds := r in Ok (mapM iter_name (map_to_list allcmds)), self').

Definition __len__ (fs : FileSystem) (b : Builtins) (self : CommandsCache)
  : result nat * CommandsCache :=
  let '(r, self') := all_commands fs b self in
  (let! allcmds := r in Ok (size allcmds), self').

(** [lazyiter], run to its end, in the order of [map_to_list]. *)
Definition lazyiter (self : CommandsCache) : list string :=
  map fst (map_to_list (_cmds_cache self)).

Definition lazylen (self : CommandsCache) : nat := size (_cmds_cache self).

(** Whether this call of [all_commands] reaches [self._cmds_cache = allcmds]:
    every [os.stat] succeeded and one of the three comparisons failed. *)
Definition rebuilds (fs : FileSystem) (b : Builtins) (self : CommandsCache)
  : bool :=
  match max_mtime_loop fs (elements (pathset fs (PATH b))) 0 with
  | Raise _ => false
  | Ok max_mtime =>
      negb (cache_valid self (hash (pathset fs (PATH b)))
              (hash (list_to_set (aliases b))) max_mtime)
  end.

(** What every entry of a published map satisfies: no path only with
    [has_alias]. *)
Definition entry_ok (e : entry) : Prop := fst e = None -> snd e = true.

(** *** Names *)

Lemma string_app_empty (s : string) : s +:+ EmptyString = s.
Proof.
  induction s as [|c s IH]; [reflexivity|].
  change (String c (s +:+ EmptyString) = String c s). by rewrite IH.
Qed.

Lemma get_possible_names_windows (b : Builtins) (name : string) :
  ON_WINDOWS = true ->
  get_possible_names b name =
    upper name :: map (fun suffix => upper name +:+ suffix) (PATHEXT b).
Proof.
  intros Hw. unfold get_possible_names. rewrite Hw. simpl.
  by rewrite string_app_empty.
Qed.

Lemma get_possible_names_head (b : Builtins) (name : string) :
  exists tl, get_possible_names b name = cmd_key name :: tl.
Proof.
  unfold get_possible_names, cmd_key. destruct ON_WINDOWS; simpl.
  - rewrite string_app_empty. eauto.
  - eauto.
Qed.

Lemma cached_name_basename (b : Builtins) (self : CommandsCache) (p : string) :
  pathbasename (pathbasename p) = pathbasename p ->
  cached_name b self (Some (pathbasename p)) = cached_name b self (Some p).
Proof. intros Hidem. unfold cached_name. by rewrite Hidem. Qed.

(** *** The scan *)

Lemma scan_dir_cons alss path m c cmds :
  scan_dir alss path m (c :: cmds) =
    scan_dir alss path
      (<[cmd_key c := (Some (os_path_join path c), bool_decide (c ∈ alss))]> m)
      cmds.
Proof. reflexivity. Qed.

Lemma scan_dir_lookup_other alss path cmds : forall m k,
  (forall c, c ∈ cmds -> cmd_key c <> k) ->
  scan_dir alss path m cmds !! k = m !! k.
Proof.
  induction cmds as [|c cmds IH]; intros m k Hk; [reflexivity|].
  rewrite scan_dir_cons, IH.
  - apply lookup_insert_ne, Hk. left.
  - intros c' Hc'. apply Hk. by right.
Qed.

Lemma scan_dir_lookup_found alss path cmds : forall m k,
  (exists c, c ∈ cmds /\ cmd_key c = k) ->
  exists c, c ∈ cmds /\ cmd_key c = k /\
    scan_dir alss path m cmds !! k =
      Some (Some (os_path_join path c), bool_decide (c ∈ alss)).
Proof.
  induction cmds as [|c0 cmds IH]; intros m k (c & Hin & Hkey).
  - by apply elem_of_nil in Hin.
  - rewrite scan_dir_cons.
    destruct (decide (Exists (fun c' => cmd_key c' = k) cmds)) as [Hex|Hno].
    + apply Exists_exists in Hex.
      destruct (IH (<[cmd_key c0 := (Some (os_path_join path c0),
                                    bool_decide (c0 ∈ alss))]> m) k Hex)
        as (c' & Hin' & Hkey' & Hlook).
      exists c'. split; [by right|]. by split.
    + assert (Hc0 : cmd_key c0 = k).
      { apply elem_of_cons in Hin as [->|Hin]; [done|].
        exfalso. apply Hno, Exists_exists. eauto. }
      exists c0. split; [left|]. split; [done|].
      rewrite scan_dir_lookup_other.
      * rewrite Hc0. apply lookup_insert_eq.
      * intros c' Hc' Hk'. apply Hno, Exists_exists. eauto.
Qed.

Lemma scan_paths_cons fs alss d paths :
  scan_paths fs alss (d :: paths) =
    scan_dir alss d (scan_paths fs alss paths) (executables_in fs d).
Proof.
  unfold scan_paths. rewrite reverse_cons, foldl_app. reflexivity.
Qed.

(** The entry that the scan leaves under a key comes from the first
    directory of the search path that has an executable with that key. *)
Lemma scan_paths_first fs alss pre d post k :
  (forall p c, p ∈ pre -> c ∈ executables_in fs p -> cmd_key c <> k) ->
  (exists c, c ∈ executables_in fs d /\ cmd_key c = k) ->
  exists c, c ∈ executables_in fs d /\ cmd_key c = k /\
    scan_paths fs alss (pre ++ d :: post) !! k =
      Some (Some (os_path_join d c), bool_decide (c ∈ alss)).
Proof.
  induction pre as [|p pre IH]; intros Hpre Hd; simpl.
  - rewrite scan_paths_cons. by apply scan_dir_lookup_found.
  - destruct IH as (c & Hin & Hkey & Hlook); [|done|].
    { intros p' c' Hp'. apply Hpre. by right. }
    exists c. split; [done|]. split; [done|].
    rewrite scan_paths_cons, scan_dir_lookup_other; [done|].
    intros c' Hc'. eapply Hpre; [left|done].
Qed.

Lemma scan_paths_absent fs alss paths k :
  (forall p c, p ∈ paths -> c ∈ executables_in fs p -> cmd_key c <> k) ->
  scan_paths fs alss paths !! k = None.
Proof.
  induction paths as [|p paths IH]; intros Hk; [reflexivity|].
  rewrite scan_paths_cons, scan_dir_lookup_other.
  - apply IH. intros p' c' Hp'. apply Hk. by right.
  - intros c' Hc'. eapply Hk; [left|done].
Qed.

(** *** The aliases *)

Lemma add_aliases_cons a alss m :
  add_aliases (a :: alss) m =
    add_aliases alss (match m !! a with
                      | None => <[cmd_key a := (None, true)]> m
                      | Some _ => m
                      end).
Proof. reflexivity. Qed.

(** An entry stays when no alias other than its key has this key. *)
Lemma add_aliases_keeps alss : forall m k e,
  (forall a, a ∈ alss -> cmd_key a = k -> a = k) ->
  m !! k = Some e ->
  add_aliases alss m !! k = Some e.
Proof.
  induction alss as [|a alss IH]; intros m k e Hal Hm; [done|].
  rewrite add_aliases_cons. apply IH.
  - intros a' Ha'. apply Hal. by right.
  - destruct (m !! a) eqn:Hma; [done|].
    rewrite lookup_insert_ne; [done|].
    intros Hk. assert (a = k) as -> by (apply Hal; [left|done]).
    congruence.
Qed.

(** Once a key is in the map it stays there, with some entry. *)
Lemma add_aliases_is_Some alss : forall m k,
  is_Some (m !! k) -> is_Some (add_aliases alss m !! k).
Proof.
  induction alss as [|a alss IH]; intros m k Hm; [done|].
  rewrite add_aliases_cons. apply IH.
  destruct (m !! a) eqn:Hma; [done|].
  destruct (decide (cmd_key a = k)) as [<-|Hne].
  - rewrite lookup_insert_eq. eauto.
  - by rewrite lookup_insert_ne.
Qed.

(** A key that no alias has is left alone. *)
Lemma add_aliases_lookup_other alss : forall m k,
  (forall a, a ∈ alss -> cmd_key a <> k) ->
  add_aliases alss m !! k = m !! k.
Proof.
  induction alss as [|a alss IH]; intros m k Hal; [done|].
  rewrite add_aliases_cons, IH.
  - destruct (m !! a); [done|]. apply lookup_insert_ne, Hal. left.
  - intros a' Ha'. apply Hal. by right.
Qed.

(** *** The invariant of the entries *)

Lemma scan_dir_ok alss path cmds : forall m,
  map_Forall (fun _ e => entry_ok e) m ->
  map_Forall (fun _ e => entry_ok e) (scan_dir alss path m cmds).
Proof.
  induction cmds as [|c cmds IH]; intros m Hm; [done|].
  rewrite scan_dir_cons. apply IH, map_Forall_insert_2; [|done].
  intros Hnone. discriminate Hnone.
Qed.

Lemma scan_paths_ok fs alss paths :
  map_Forall (fun _ e => entry_ok e) (scan_paths fs alss paths).
Proof.
  induction paths as [|p paths IH].
  - apply map_Forall_empty.
  - rewrite scan_paths_cons. by apply scan_dir_ok.
Qed.

Lemma add_aliases_ok alss : forall m,
  map_Forall (fun _ e => entry_ok e) m ->
  map_Forall (fun _ e => entry_ok e) (add_aliases alss m).
Proof.
  induction alss as [|a alss IH]; intros m Hm; [done|].
  rewrite add_aliases_cons. apply IH.
  destruct (m !! a); [done|]. by apply map_Forall_insert_2.
Qed.

Lemma rebuild_ok fs b : map_Forall (fun _ e => entry_ok e) (rebuild fs b).
Proof. apply add_aliases_ok, scan_paths_ok. Qed.

(** *** The fingerprint *)

Lemma elem_of_pathset fs paths p :
  p ∈ pathset fs paths <-> p ∈ paths /\ isdir fs p = true.
Proof.
  unfold pathset. rewrite elem_of_list_to_set, !list_elem_of_In.
  apply filter_In.
Qed.

Lemma max_mtime_loop_ok fs ps : forall m0,
  (forall p, p ∈ ps -> is_Some (st_mtime fs p)) ->
  exists m, max_mtime_loop fs ps m0 = Ok m.
Proof.
  induction ps as [|p ps IH]; intros m0 Hps; simpl; [eauto|].
  destruct (Hps p) as [t Ht]; [left|]. rewrite Ht.
  apply IH. intros p' Hp'. apply Hps. by right.
Qed.


(** The loop returns the largest modification time, and at least its
    starting value. *)
Lemma max_mtime_loop_max fs ps : forall m0 m,
  max_mtime_loop fs ps m0 = Ok m ->
  m0 <= m /\
  (forall p, p ∈ ps -> exists t, st_mtime fs p = Some t /\ t <= m) /\
  (m = m0 \/ exists p, p ∈ ps /\ st_mtime fs p = Some m).
Proof.
  induction ps as [|p ps IH]; intros m0 m Hloop; simpl in Hloop.
  - injection Hloop as <-. split; [lia|]. split; [|by left].
    intros p Hp. by apply elem_of_nil in Hp.
  - destruct (st_mtime fs p) as [t|] eqn:Ht; [|done].
    destruct (IH _ _ Hloop) as (Hle & Hall & Hwit).
    destruct (Z.gtb_spec t m0) as [Hgt|Hngt].
    + split; [lia|]. split.
      * intros p' Hp'. apply elem_of_cons in Hp' as [->|Hp'].
        -- exists t. split; [done|lia].
        -- by apply Hall.
      * right. destruct Hwit as [->|(p' & Hin & Hp')].
        -- exists p. split; [left|done].
        -- exists p'. split; [by right|done].
    + split; [lia|]. split.
      * intros p' Hp'. apply elem_of_cons in Hp' as [->|Hp'].
        -- exists t. split; [done|lia].
        -- by apply Hall.
      * destruct Hwit as [->|(p' & Hin & Hp')]; [by left|].
        right. exists p'. split; [by right|done].
Qed.

Lemma cache_valid_iff self path_hash al_hash max_mtime :
  cache_valid self path_hash al_hash max_mtime = true <->
  _path_checksum self = Some path_hash /\
  _alias_checksum self = Some al_hash /\
  max_mtime <= _path_mtime self.
Proof.
  unfold cache_valid.
  rewrite !andb_true_iff, !bool_decide_eq_true, Z.leb_le.
  intuition congruence.
Qed.

(** *** [all_commands] *)

Lemma all_commands_raises fs b self e :
  max_mtime_loop fs (elements (pathset fs (PATH b))) 0 = Raise e ->
  all_commands fs b self =
    (Raise e,
     {| _cmds_cache := _cmds_cache self;
        _path_checksum := Some (hash (pathset fs (PATH b)));
        _alias_checksum := Some (hash (list_to_set (aliases b)));
        _path_mtime := _path_mtime self;
        backgroundable_predictors := backgroundable_predictors self |}).
Proof. intros Hloop. unfold all_commands. by rewrite Hloop. Qed.

Lemma all_commands_returns fs b self max_mtime :
  max_mtime_loop fs (elements (pathset fs (PATH b))) 0 = Ok max_mtime ->
  all_commands fs b self =
    (Ok (if rebuilds fs b self then rebuild fs b else _cmds_cache self),
     {| _cmds_cache := if rebuilds fs b self then rebuild fs b
                       else _cmds_cache self;
        _path_checksum := Some (hash (pathset fs (PATH b)));
        _alias_checksum := Some (hash (list_to_set (aliases b)));
        _path_mtime := max_mtime;
        backgroundable_predictors := backgroundable_predictors self |}).
Proof.
  intros Hloop. unfold all_commands, rebuilds. rewrite Hloop.
  by destruct (cache_valid _ _ _ _).
Qed.

Lemma rebuilds_stat fs b self :
  rebuilds fs b self = true ->
  exists max_mtime,
    max_mtime_loop fs (elements (pathset fs (PATH b))) 0 = Ok max_mtime.
Proof.
  unfold rebuilds. destruct (max_mtime_loop _ _ _); [eauto|done].
Qed.

Lemma pathset_ext fs fs' paths :
  (forall p, isdir fs' p = isdir fs p) ->
  pathset fs' paths = pathset fs paths.
Proof.
  intros Hdir. unfold pathset. f_equal.
  apply filter_ext. intros p. apply Hdir.
Qed.

Lemma max_mtime_loop_ext fs fs' ps : forall m0,
  (forall p, st_mtime fs' p = st_mtime fs p) ->
  max_mtime_loop fs' ps m0 = max_mtime_loop fs ps m0.
Proof.
  induction ps as [|p ps IH]; intros m0 Hstat; simpl; [done|].
  rewrite Hstat. destruct (st_mtime fs p); [|done]. by apply IH.
Qed.

End CommandsCache.

(** ** Base names *)

Lemma basename_at_no_sep (is_sep : ascii -> bool) (p : string) :
  has_sep is_sep (basename_at is_sep p) = false.
Proof.
  induction p as [|c p IH]; [reflexivity|]. simpl.
  destruct (has_sep is_sep p) eqn:Hp; [exact IH|].
  destruct (is_sep c) eqn:Hc; [exact Hp|]. simpl. by rewrite Hc, Hp.
Qed.

Lemma basename_at_id (is_sep : ascii -> bool) (p : string) :
  has_sep is_sep p = false -> basename_at is_sep p = p.
Proof.
  destruct p as [|c p]; [reflexivity|]. simpl. intros Hsep.
  apply orb_false_iff in Hsep as [Hc Hp]. by rewrite Hp, Hc.
Qed.

(** [os.path.basename] gives a base name back unchanged. *)
Lemma basename_at_idempotent (is_sep : ascii -> bool) (p : string) :
  basename_at is_sep (basename_at is_sep p) = basename_at is_sep p.
Proof. apply basename_at_id, basename_at_no_sep. Qed.

(** ** The claims *)

(** C7. [get_possible_names]: on a platform that resolves by suffix the
    upper-cased name comes first, then the upper-cased name with each suffix
    of [PATHEXT], in the order of [PATHEXT]; elsewhere the list is [name]
    alone, as it was given.  With the suffixes [.EXE] and [.BAT] the name
    [foo] gives [FOO], [FOO.EXE], [FOO.BAT]. *)
Theorem get_possible_names_order :
  (forall (pl : Platform) (b : Builtins) (name : string),
     get_possible_names b name =
       if ON_WINDOWS
       then upper name :: map (fun suffix => upper name +:+ suffix) (PATHEXT b)
       else [name]) /\
  @get_possible_names windows
     {| PATH := []; PATHEXT := [".EXE"; ".BAT"]; aliases := [] |} "foo"
   = ["FOO"; "FOO.EXE"; "FOO.BAT"].
Proof.
  split; [|reflexivity].
  intros pl b name. destruct ON_WINDOWS eqn:Hw.
  - by apply get_possible_names_windows.
  - unfold get_possible_names. by rewrite Hw.
Qed.

Lemma lazyin_iff `{pl : Platform} (b : Builtins) (self : CommandsCache)
    (p : string) :
  lazyin b self (Some p) = true <->
  exists k, k ∈ get_possible_names b (pathbasename p) /\
            is_Some (_cmds_cache self !! k).
Proof.
  split.
  - unfold lazyin, cached_name, get_possible_names.
    destruct ON_WINDOWS.
    + destruct (List.find _ _) as [k|] eqn:Hfind; [|done].
      intros Hin. apply find_some in Hfind as [Hk Hc].
      exists k. split; [by apply list_elem_of_In|].
      unfold in_cache in Hc. by apply bool_decide_eq_true in Hc.
    + intros Hin. exists (pathbasename p). split; [left|].
      unfold in_cache in Hin. by apply bool_decide_eq_true in Hin.
  - intros (k & Hk & Hc). unfold lazyin, cached_name.
    assert (Hc' : in_cache self k = true) by by apply bool_decide_eq_true.
    destruct ON_WINDOWS eqn:Hw.
    + destruct (List.find _ _) as [k'|] eqn:Hfind.
      * by apply find_some in Hfind as [_ ?].
      * apply list_elem_of_In in Hk.
        pose proof (find_none _ _ Hfind _ Hk) as Hnone. congruence.
    + unfold get_possible_names in Hk. rewrite Hw in Hk.
      apply list_elem_of_singleton in Hk as ->. done.
Qed.

Lemma lazyget_find `{pl : Platform} (b : Builtins) (self : CommandsCache)
    (p : string) :
  lazyget b self (Some p) =
    match List.find (in_cache self) (get_possible_names b (pathbasename p)) with
    | Some k => _cmds_cache self !! k
    | None => None
    end.
Proof.
  unfold lazyget, cached_name, get_possible_names.
  destruct ON_WINDOWS; [reflexivity|]. simpl.
  destruct (in_cache self (pathbasename p)) eqn:Hc; [reflexivity|].
  unfold in_cache in Hc. apply bool_decide_eq_false in Hc.
  by apply eq_None_not_Some.
Qed.

Lemma all_commands_stores `{pl : Platform} (fs : FileSystem) (b : Builtins)
    (self self' : CommandsCache) (m : gmap string entry) :
  all_commands fs b self = (Ok m, self') -> _cmds_cache self' = m.
Proof.
  intros Hrun.
  destruct (max_mtime_loop fs (elements (pathset fs (PATH b))) 0)
    as [mt|e] eqn:Hloop.
  - rewrite (all_commands_returns fs b self mt Hloop) in Hrun.
    by injection Hrun as <- <-.
  - rewrite (all_commands_raises fs b self e Hloop) in Hrun. discriminate.
Qed.

(** C10. The key of a lookup is cut down to its base name before the cache
    is asked: when [pathbasename] gives a base name back unchanged, a lookup
    of [p] and a lookup of [pathbasename p] agree, lazy or validating, and
    [p] is found exactly when one of the names that the platform tries for
    the base name ([get_possible_names], the name itself off Windows) is a
    key of the cache.  The lazy lookup gives the entry stored under the first
    of these names that is a key, and the default when none is.  A validating
    lookup that returns the map [m] has stored [m] and answers as the lazy
    one does on it: [__contains__] is true exactly when one of the names is a
    key of [m], [__getitem__] gives the entry of the first such name; when
    validating raises, both raise the same error. *)
Theorem lookup_by_basename `{pl : Platform} (fs : FileSystem) (b : Builtins)
    (self : CommandsCache) (p : string) :
  pathbasename (pathbasename p) = pathbasename p ->
  lazyget b self (Some p) = lazyget b self (Some (pathbasename p)) /\
  lazyin b self (Some p) = lazyin b self (Some (pathbasename p)) /\
  getitem fs b self (Some p) = getitem fs b self (Some (pathbasename p)) /\
  contains fs b self (Some p) = contains fs b self (Some (pathbasename p)) /\
  (lazyin b self (Some p) = true <->
   exists k, k ∈ get_possible_names b (pathbasename p) /\
             is_Some (_cmds_cache self !! k)) /\
  (ON_WINDOWS = false ->
   lazyget b self (Some p) = _cmds_cache self !! pathbasename p) /\
  lazyget b self (Some p) =
    match List.find (in_cache self) (get_possible_names b (pathbasename p)) with
    | Some k => _cmds_cache self !! k
    | None => None
    end /\
  (forall (m : gmap string entry) (self' : CommandsCache),
     all_commands fs b self = (Ok m, self') ->
     _cmds_cache self' = m /\
     contains fs b self (Some p) = (Ok (lazyin b self' (Some p)), self') /\
     getitem fs b self (Some p) = (Ok (lazyget b self' (Some p)), self') /\
     (contains fs b self (Some p) = (Ok true, self') <->
      exists k, k ∈ get_possible_names b (pathbasename p) /\ is_Some (m !! k)) /\
     getitem fs b self (Some p) =
       (Ok match List.find (fun k => bool_decide (is_Some (m !! k)))
                   (get_possible_names b (pathbasename p)) with
           | Some k => m !! k
           | None => None
           end, self') /\
     (ON_WINDOWS = false ->
      contains fs b self (Some p)
        = (Ok (bool_decide (is_Some (m !! pathbasename p))), self') /\
      getitem fs b self (Some p) = (Ok (m !! pathbasename p), self'))) /\
  (forall (e : exn) (self' : CommandsCache),
     all_commands fs b self = (Raise e, self') ->
     contains fs b self (Some p) = (Raise e, self') /\
     getitem fs b self (Some p) = (Raise e, self')).
Proof.
  intros Hidem.
  assert (Hname : forall s, cached_name b s (Some (pathbasename p)) =
                            cached_name b s (Some p))
    by (intros s; by apply cached_name_basename).
  split; [|split; [|split; [|split; [|split; [|split; [|split; [|split]]]]]]].
  - unfold lazyget. by rewrite Hname.
  - unfold lazyin. by rewrite Hname.
  - unfold getitem, lazyget. destruct (all_commands fs b self) as [r s].
    by rewrite Hname.
  - unfold contains, lazyin. destruct (all_commands fs b self) as [r s].
    by rewrite Hname.
  - apply lazyin_iff.
  - intros Hw. unfold lazyget, cached_name. by rewrite Hw.
  - apply lazyget_find.
  - intros m self' Hrun.
    pose proof (all_commands_stores fs b self self' m Hrun) as Hm.
    assert (Hc : contains fs b self (Some p)
                 = (Ok (lazyin b self' (Some p)), self'))
      by (unfold contains; by rewrite Hrun).
    assert (Hg : getitem fs b self (Some p)
                 = (Ok (lazyget b self' (Some p)), self'))
      by (unfold getitem; by rewrite Hrun).
    split; [done|]. split; [done|]. split; [done|].
    split; [|split].
    + rewrite Hc, <- Hm, <- lazyin_iff. split.
      * by intros [= ->].
      * by intros ->.
    + rewrite Hg, lazyget_find, <- Hm. reflexivity.
    + intros Hw. rewrite Hc, Hg. unfold lazyin, lazyget, cached_name.
      rewrite Hw, <- Hm. done.
  - intros e self' Hrun. unfold contains, getitem. by rewrite Hrun.
Qed.

(** C9. [is_empty] tells whether the current map has no entry: it is true
    on a cache that was never populated, and after a validating operation it
    is true exactly when the map left behind, rebuilt or kept, is empty. *)
Theorem is_empty_spec `{pl : Platform} (fs : FileSystem) (b : Builtins)
    (self : CommandsCache) :
  (is_empty self = true <-> _cmds_cache self = ∅) /\
  is_empty init = true /\
  (rebuilds fs b self = true ->
   (is_empty (snd (all_commands fs b self)) = true <-> rebuild fs b = ∅)).
Proof.
  assert (Hsize : forall s, is_empty s = true <-> _cmds_cache s = ∅).
  { intros s. unfold is_empty. rewrite Nat.eqb_eq. apply map_size_empty_iff. }
  split; [apply Hsize|]. split; [reflexivity|].
  intros Hre. destruct (rebuilds_stat fs b self Hre) as [mt Hloop].
  rewrite Hsize, (all_commands_returns fs b self mt Hloop), Hre. done.
Qed.

(** C8. Every entry of a map that a rebuild publishes has a path or is an
    alias: when its path is [None], its [has_alias] flag is true. *)
Theorem entries_have_path_or_alias `{pl : Platform} (fs : FileSystem)
    (b : Builtins) (self : CommandsCache) (k : string) (path : option string)
    (has_alias : bool) :
  rebuilds fs b self = true ->
  _cmds_cache (snd (all_commands fs b self)) !! k = Some (path, has_alias) ->
  path = None ->
  has_alias = true.
Proof.
  intros Hre Hlook Hnone.
  destruct (rebuilds_stat fs b self Hre) as [mt Hloop].
  rewrite (all_commands_returns fs b self mt Hloop), Hre in Hlook.
  simpl in Hlook. by apply (rebuild_ok fs b k (path, has_alias) Hlook).
Qed.

(** C2. A validating operation that returns has computed the largest
    modification time [max_mtime] of the existing directories (0 at least);
    it keeps the cache, that is, does not rebuild, exactly when the stored
    path checksum is the hash of the set of existing directories, the stored
    alias checksum is the hash of the alias set, and [max_mtime] is at most
    the stored one.  When it keeps the cache it returns the stored map, leaves
    it in place, and does not depend on what the directories hold.  When one
    of the three comparisons fails it returns the map rebuilt from the search
    path and the aliases, and stores that map.  In both
    cases the three stored fingerprint fields are the new values afterwards,
    and the same operation run again keeps the cache, returns the same map
    and changes nothing, so a validating lookup is then the lazy lookup. *)
Theorem all_commands_validity `{pl : Platform} (fs : FileSystem) (b : Builtins)
    (self self' : CommandsCache) (m : gmap string entry) :
  all_commands fs b self = (Ok m, self') ->
  exists max_mtime : Z,
    (0 <= max_mtime /\
     (forall p, p ∈ PATH b -> isdir fs p = true ->
        exists t, st_mtime fs p = Some t /\ t <= max_mtime) /\
     (max_mtime = 0 \/
      exists p, p ∈ PATH b /\ isdir fs p = true /\
                st_mtime fs p = Some max_mtime)) /\
    (rebuilds fs b self = false <->
     _path_checksum self = Some (hash (pathset fs (PATH b))) /\
     _alias_checksum self = Some (hash (list_to_set (aliases b))) /\
     max_mtime <= _path_mtime self) /\
    (rebuilds fs b self = false ->
     m = _cmds_cache self /\
     _cmds_cache self' = _cmds_cache self /\
     forall fs' : FileSystem,
       (forall p, isdir fs' p = isdir fs p) ->
       (forall p, st_mtime fs' p = st_mtime fs p) ->
       all_commands fs' b self = (Ok m, self')) /\
    (rebuilds fs b self = true ->
     m = rebuild fs b /\ _cmds_cache self' = rebuild fs b) /\
    (_path_checksum self' = Some (hash (pathset fs (PATH b))) /\
     _alias_checksum self' = Some (hash (list_to_set (aliases b))) /\
     _path_mtime self' = max_mtime) /\
    rebuilds fs b self' = false /\
    all_commands fs b self' = (Ok m, self') /\
    (forall key, getitem fs b self' key = (Ok (lazyget b self' key), self')).
Proof.
  intros Hrun.
  destruct (max_mtime_loop fs (elements (pathset fs (PATH b))) 0)
    as [mt|e] eqn:Hloop.
  2:{ rewrite (all_commands_raises fs b self e Hloop) in Hrun. discriminate. }
  pose proof (all_commands_returns fs b self mt Hloop) as Hret.
  rewrite Hret in Hrun. injection Hrun as Hm Hself.
  assert (Hre : rebuilds fs b self = negb (cache_valid self
            (hash (pathset fs (PATH b))) (hash (list_to_set (aliases b))) mt))
    by (unfold rebuilds; by rewrite Hloop).
  assert (Hre' : rebuilds fs b self' = false).
  { unfold rebuilds. rewrite Hloop. apply negb_false_iff, cache_valid_iff.
    rewrite <- Hself. simpl. repeat split; lia. }
  exists mt.
  assert (Hagain : all_commands fs b self' = (Ok m, self')).
  { rewrite (all_commands_returns fs b self' mt Hloop), Hre'.
    assert (Hcache : _cmds_cache self' = m) by (rewrite <- Hself; simpl; done).
    rewrite Hcache. f_equal. rewrite <- Hself at 2. rewrite <- Hself in Hcache.
    simpl in Hcache. rewrite Hcache. f_equal. by rewrite <- Hself. }
  split; [|split; [|split; [|split; [|split; [|split; [|split]]]]]].
  - destruct (max_mtime_loop_max fs _ _ _ Hloop) as (Hle & Hall & Hwit).
    split; [done|]. split.
    + intros p Hp Hdir. apply Hall, elem_of_elements, elem_of_pathset. done.
    + destruct Hwit as [?|(p & Hp & Hst)]; [by left|right].
      apply elem_of_elements, elem_of_pathset in Hp as [Hp Hdir]. eauto.
  - rewrite Hre, negb_false_iff. apply cache_valid_iff.
  - intros Hkeep. rewrite Hkeep in Hm, Hself.
    split; [done|]. split; [by rewrite <- Hself|].
    intros fs' Hdir Hstat.
    assert (Hloop' :
      max_mtime_loop fs' (elements (pathset fs' (PATH b))) 0 = Ok mt).
    { rewrite (pathset_ext fs fs' _ Hdir), (max_mtime_loop_ext fs fs' _ _ Hstat).
      done. }
    assert (Hkeep' : rebuilds fs' b self = false).
    { unfold rebuilds. rewrite Hloop', (pathset_ext fs fs' _ Hdir).
      rewrite <- Hkeep, Hre. done. }
    rewrite (all_commands_returns fs' b self mt Hloop'), Hkeep'.
    rewrite (pathset_ext fs fs' _ Hdir). by rewrite <- Hm, <- Hself.
  - intros Hstale. rewrite Hstale in Hm, Hself.
    split; [done|]. by rewrite <- Hself.
  - by rewrite <- Hself.
  - done.
  - done.
  - intros key. unfold getitem. by rewrite Hagain.
Qed.


(** *** Locating a binary *)

Lemma find_all_false {A : Type} (f : A -> bool) (l : list A) :
  (forall x, x ∈ l -> f x = false) -> List.find f l = None.
Proof.
  induction l as [|x l IH]; intros Hall; [reflexivity|]. simpl.
  rewrite (Hall x) by left. apply IH. intros y Hy. apply Hall. by right.
Qed.

Lemma truthy_nonempty (s : string) : s <> EmptyString -> truthy s = true.
Proof. by destruct s. Qed.

(** With no local file in the way, [lazy_locate_binary] returns the path
    stored under the name's own key, when the cache has this key. *)
Lemma lazy_locate_binary_cached `{pl : Platform} (fs : FileSystem)
    (b : Builtins) (self : CommandsCache) (name : string) (e : entry) :
  (ON_WINDOWS = true ->
   forall fn, fn ∈ get_possible_names b name -> isfile fs fn = false) ->
  cmd_key name <> EmptyString ->
  _cmds_cache self !! cmd_key name = Some e ->
  lazy_locate_binary fs b self name = fst e.
Proof.
  intros Hlocal Hne Hlook. unfold lazy_locate_binary.
  assert (Hnolocal :
    (if ON_WINDOWS
     then match List.find (isfile fs) (get_possible_names b name) with
          | Some fn => if truthy fn then Some fn else None
          | None => None
          end
     else None) = None).
  { destruct ON_WINDOWS eqn:Hw; [|done].
    rewrite find_all_false; [done|]. by apply Hlocal. }
  rewrite Hnolocal.
  destruct (get_possible_names_head b name) as [tl ->]. simpl.
  assert (Hin : in_cache self (cmd_key name) = true).
  { unfold in_cache. apply bool_decide_eq_true. rewrite Hlook. eauto. }
  rewrite Hin, (truthy_nonempty _ Hne), Hlook. done.
Qed.

Lemma locate_binary_rebuilds `{pl : Platform} (fs : FileSystem) (b : Builtins)
    (self : CommandsCache) (name : string) :
  rebuilds fs b self = true ->
  exists self', _cmds_cache self' = rebuild fs b /\
    locate_binary fs b self name =
      (Ok (lazy_locate_binary fs b self' name), self').
Proof.
  intros Hre. destruct (rebuilds_stat fs b self Hre) as [mt Hloop].
  unfold locate_binary.
  rewrite (all_commands_returns fs b self mt Hloop), Hre. simpl.
  eexists. split; last reflexivity. reflexivity.
Qed.

(** C1. A rebuild scans the search path from its last directory to its
    first, so the entry that the scan leaves under a key is the one of the
    first directory holding an executable with this key.  With a search path
    that starts with [dirA], where [dirA] holds [foo], a [locate_binary] of
    [foo] that rebuilds returns the path of [dirA]'s executable, provided
    that on Windows no name variant of [foo] is a file of the current
    directory and no alias other than the key itself has the key of [foo].
    On Windows a name variant that is a file of the current directory is
    returned first, as its absolute path. *)
Theorem first_directory_wins `{pl : Platform} (fs : FileSystem) (b : Builtins)
    (self : CommandsCache) :
  (forall (pre : list string) (d : string) (post : list string) (k : string),
     (forall p c, p ∈ pre -> c ∈ executables_in fs p -> cmd_key c <> k) ->
     (exists c, c ∈ executables_in fs d /\ cmd_key c = k) ->
     exists c, c ∈ executables_in fs d /\ cmd_key c = k /\
       scan_paths fs (aliases b) (pre ++ d :: post) !! k =
         Some (Some (os_path_join d c), bool_decide (c ∈ aliases b))) /\
  (forall (dirA : string) (rest : list string) (foo : string),
     PATH b = dirA :: rest ->
     foo ∈ executables_in fs dirA ->
     cmd_key foo <> EmptyString ->
     rebuilds fs b self = true ->
     (ON_WINDOWS = true ->
      forall fn, fn ∈ get_possible_names b foo -> isfile fs fn = false) ->
     (ON_WINDOWS = true ->
      forall a, a ∈ aliases b -> upper a = upper foo -> a = upper foo) ->
     exists c, c ∈ executables_in fs dirA /\ cmd_key c = cmd_key foo /\
       (ON_WINDOWS = false -> c = foo) /\
       fst (locate_binary fs b self foo) = Ok (Some (os_path_join dirA c))) /\
  (forall (name fn : string),
     ON_WINDOWS = true ->
     List.find (isfile fs) (get_possible_names b name) = Some fn ->
     fn <> EmptyString ->
     lazy_locate_binary fs b self name = Some (abspath fs fn)).
Proof.
  split; [|split].
  - intros pre d post k. apply scan_paths_first.
  - intros dirA rest foo Hpath Hfoo Hne Hre Hlocal Halias.
    destruct (scan_paths_first fs (aliases b) [] dirA rest (cmd_key foo))
      as (c & Hc & Hkey & Hscan).
    { intros p c' Hp. by apply elem_of_nil in Hp. }
    { eauto. }
    exists c. split; [done|]. split; [done|]. split.
    { intros Hw. unfold cmd_key in Hkey. by rewrite Hw in Hkey. }
    destruct (locate_binary_rebuilds fs b self foo Hre) as (self' & Hcache & ->).
    simpl. f_equal.
    rewrite (lazy_locate_binary_cached fs b self' foo
               (Some (os_path_join dirA c), bool_decide (c ∈ aliases b)));
      [done|done|done|].
    rewrite Hcache. unfold rebuild. rewrite Hpath.
    apply add_aliases_keeps; [|done].
    intros a Ha. unfold cmd_key. destruct ON_WINDOWS eqn:Hw; [|done].
    by apply Halias.
  - intros name fn Hw Hfind Hne. unfold lazy_locate_binary.
    by rewrite Hw, Hfind, (truthy_nonempty _ Hne).
Qed.

(** *** Aliases off Windows *)

Lemma scan_dir_lookup_inv `{pl : Platform} alss path cmds : forall m k e,
  scan_dir alss path m cmds !! k = Some e ->
  m !! k = Some e \/
  exists c, c ∈ cmds /\ cmd_key c = k /\
    e = (Some (os_path_join path c), bool_decide (c ∈ alss)).
Proof.
  induction cmds as [|c cmds IH]; intros m k e Hlook; [by left|].
  rewrite scan_dir_cons in Hlook.
  destruct (IH _ _ _ Hlook) as [Hm|(c' & Hc' & Hkey & He)].
  - destruct (decide (cmd_key c = k)) as [Heq|Hne].
    + rewrite Heq, lookup_insert_eq in Hm. injection Hm as <-.
      right. exists c. split; [left|done].
    + rewrite lookup_insert_ne in Hm by done. by left.
  - right. exists c'. split; [by right|done].
Qed.

Lemma scan_paths_lookup_inv `{pl : Platform} fs alss paths : forall k e,
  scan_paths fs alss paths !! k = Some e ->
  exists d c, d ∈ paths /\ c ∈ executables_in fs d /\ cmd_key c = k /\
    e = (Some (os_path_join d c), bool_decide (c ∈ alss)).
Proof.
  induction paths as [|p paths IH]; intros k e Hlook; [done|].
  rewrite scan_paths_cons in Hlook.
  destruct (scan_dir_lookup_inv _ _ _ _ _ _ Hlook)
    as [Hm|(c & Hc & Hkey & He)].
  - destruct (IH _ _ Hm) as (d & c & Hd & Hrest).
    exists d, c. split; [by right|done].
  - exists p, c. split; [left|done].
Qed.

Lemma add_aliases_adds `{pl : Platform} alss : forall m a,
  ON_WINDOWS = false ->
  a ∈ alss ->
  m !! a = None ->
  add_aliases alss m !! a = Some (None, true).
Proof.
  induction alss as [|a0 alss IH]; intros m a Hw Hin Hm.
  - by apply elem_of_nil in Hin.
  - rewrite add_aliases_cons. unfold cmd_key. rewrite Hw.
    destruct (decide (a0 = a)) as [->|Hne].
    + rewrite Hm. apply add_aliases_keeps.
      * intros a' _. unfold cmd_key. by rewrite Hw.
      * apply lookup_insert_eq.
    + apply elem_of_cons in Hin as [->|Hin]; [done|].
      apply IH; [done|done|].
      destruct (m !! a0); [done|]. by rewrite lookup_insert_ne.
Qed.

(** C5. Off Windows, an alias whose name is not a key of the scanned map
    gets the entry [(None, True)], and an alias whose name is a key of the
    scanned map leaves the entry as the scan wrote it, with its path and
    with [has_alias] true.  On Windows the membership test is made with the
    alias name and the entry is written under the upper-cased name: with
    [foo.exe] in [C:\bin] and an alias [foo.exe], the scan stores the path
    under [FOO.EXE] and the alias loop then replaces it by [(None, True)]. *)
Theorem alias_entries :
  (forall (pl : Platform) (fs : FileSystem) (b : Builtins) (a : string),
     ON_WINDOWS = false ->
     a ∈ aliases b ->
     (scan_paths fs (aliases b) (PATH b) !! a = None ->
      rebuild fs b !! a = Some (None, true)) /\
     (forall e, scan_paths fs (aliases b) (PATH b) !! a = Some e ->
        rebuild fs b !! a = Some e /\ exists path, e = (Some path, true))) /\
  @scan_paths windows (nt_fs false) ["foo.exe"] (PATH (nt_builtins ["foo.exe"]))
    !! "FOO.EXE" = Some (Some "C:\bin\foo.exe", true) /\
  @rebuild windows (nt_fs false) (nt_builtins ["foo.exe"]) !! "FOO.EXE"
    = Some (None, true).
Proof.
  split; [|split; vm_compute; reflexivity].
  intros pl fs b a Hw Ha. split.
  - intros Hscan. unfold rebuild. by apply add_aliases_adds.
  - intros e Hscan. split.
    + unfold rebuild. apply add_aliases_keeps; [|done].
      intros a' _. unfold cmd_key. by rewrite Hw.
    + destruct (scan_paths_lookup_inv _ _ _ _ _ Hscan)
        as (d & c & _ & _ & Hkey & ->).
      unfold cmd_key in Hkey. rewrite Hw in Hkey. subst c.
      exists (os_path_join d a). by rewrite bool_decide_eq_true_2.
Qed.

(** *** The predictors *)

Lemma default_predictor_vi :
  default_backgroundable_predictors !! "vi" = Some predict_false.
Proof. vm_compute. reflexivity. Qed.

Lemma default_predictor_unknowncmd :
  default_backgroundable_predictors !! "unknowncmd" = None.
Proof. vm_compute. reflexivity. Qed.

(** C3. [predict_backgroundable] looks [cmd[0]] up without validating, by
    its cached name.  It predicts true when the cache has no entry for the
    name, when the entry has no path, and when the entry has an alias;
    otherwise it returns what the predictor registered for the cached name
    says about [cmd[1:]], and [predict_true] stands in when none is
    registered.  Off Windows the cached name is the base name of [cmd[0]],
    so with the default predictors an [unknowncmd] is predicted true, and
    [vi] is predicted false when the cache holds [vi] with a path and no
    alias.  On Windows the code departs from this: [cached_name] hands back
    the key of the cache, upper-cased and with its suffix, and the predictors
    are registered under lower-case names, so for [vi.exe] on the search path
    with no alias the predictor of [vi] is not reached and the prediction is
    true. *)
Theorem predict_backgroundable_spec :
  (forall (pl : Platform) (b : Builtins) (self : CommandsCache)
          (cmd0 : string) (args : list string),
     (lazyget b self (cached_name b self (Some cmd0)) = None ->
      predict_backgroundable b self (cmd0 :: args) = Ok true) /\
     (forall has_alias,
        lazyget b self (cached_name b self (Some cmd0)) = Some (None, has_alias) ->
        predict_backgroundable b self (cmd0 :: args) = Ok true) /\
     (forall path,
        lazyget b self (cached_name b self (Some cmd0)) = Some (path, true) ->
        predict_backgroundable b self (cmd0 :: args) = Ok true) /\
     (forall path,
        lazyget b self (cached_name b self (Some cmd0)) = Some (Some path, false) ->
        predict_backgroundable b self (cmd0 :: args) =
          predictor_for self (cached_name b self (Some cmd0)) args)) /\
  (forall (self : CommandsCache) (n : string),
     predictor_for self (Some n) =
       default predict_true (backgroundable_predictors self !! n)) /\
  (forall (pl : Platform) (b : Builtins) (self : CommandsCache) (cmd0 : string),
     ON_WINDOWS = false ->
     pathbasename (pathbasename cmd0) = pathbasename cmd0 ->
     cached_name b self (Some cmd0) = Some (pathbasename cmd0) /\
     lazyget b self (cached_name b self (Some cmd0)) =
       lazyget b self (Some cmd0)) /\
  (forall (b : Builtins) (self : CommandsCache) (args : list string),
     backgroundable_predictors self = default_backgroundable_predictors ->
     @predict_backgroundable posix b self ("unknowncmd" :: args) = Ok true) /\
  (forall (b : Builtins) (self : CommandsCache) (path : string)
          (args : list string),
     backgroundable_predictors self = default_backgroundable_predictors ->
     _cmds_cache self !! "vi" = Some (Some path, false) ->
     @predict_backgroundable posix b self ("vi" :: args) = Ok false) /\
  (@cached_name windows (nt_builtins [])
      (snd (@all_commands windows (nt_fs false) (nt_builtins []) init))
      (Some "vi") = Some "VI.EXE" /\
   @lazyget windows (nt_builtins [])
      (snd (@all_commands windows (nt_fs false) (nt_builtins []) init))
      (Some "VI.EXE") = Some (Some "C:\bin\vi.exe", false) /\
   default_backgroundable_predictors !! "VI.EXE" = None /\
   default_backgroundable_predictors !! "vi" = Some predict_false /\
   @predict_backgroundable windows (nt_builtins [])
      (snd (@all_commands windows (nt_fs false) (nt_builtins []) init))
      ["vi"; "file.txt"] = Ok true).
Proof.
  split; [|split; [|split; [|split; [|split]]]].
  - intros pl b self cmd0 args. unfold predict_backgroundable.
    split; [|split; [|split]].
    + by intros ->.
    + by intros has_alias ->.
    + intros path ->. by destruct path.
    + by intros path ->.
  - intros self n. unfold predictor_for.
    by destruct (backgroundable_predictors self !! n).
  - intros pl b self cmd0 Hw Hidem.
    assert (Hname : cached_name b self (Some cmd0) = Some (pathbasename cmd0))
      by (unfold cached_name; by rewrite Hw).
    split; [done|]. rewrite Hname. unfold lazyget.
    rewrite Hname. unfold cached_name. by rewrite Hw, Hidem.
  - intros b self args Htable. unfold predict_backgroundable.
    assert (Hname : @cached_name posix b self (Some "unknowncmd")
                    = Some "unknowncmd") by reflexivity.
    rewrite Hname.
    destruct (lazyget b self (Some "unknowncmd")) as [[[path|] [|]]|]; try done.
    unfold predictor_for. by rewrite Htable, default_predictor_unknowncmd.
  - intros b self path args Htable Hvi. unfold predict_backgroundable.
    assert (Hname : @cached_name posix b self (Some "vi") = Some "vi")
      by reflexivity.
    rewrite Hname.
    assert (Hget : @lazyget posix b self (Some "vi") =
                   Some (Some path, false)).
    { unfold lazyget. by rewrite Hname. }
    rewrite Hget. unfold predictor_for. by rewrite Htable, default_predictor_vi.
  - split; [|split; [|split; [|split]]];
      [| | |exact default_predictor_vi|]; vm_compute; reflexivity.
Qed.

(** *** The shell predictor *)

Lemma parse_optional_plain (a : string) :
  plain a = true -> _parse_optional a = Ok None.
Proof.
  destruct a as [|ch tl]; [done|]. simpl. by intros ->.
Qed.

Lemma plain_not_dashes (a : string) :
  plain a = true -> String.eqb a "--" = false.
Proof.
  destruct a as [|ch tl]; [done|]. simpl. intros Hch.
  apply negb_true_iff in Hch. by rewrite Hch.
Qed.

Lemma classify_plain (args : list string) :
  Forall (fun a => plain a = true) args ->
  classify args = Ok (map (fun a => (PA, a)) args).
Proof.
  induction 1 as [|a args Ha _ IH]; [done|]. simpl.
  by rewrite (plain_not_dashes a Ha), (parse_optional_plain a Ha), IH.
Qed.

Lemma parse_from_extras (l : list string) : forall namespace extras,
  parse_from (map (fun a => (PA, a)) l) namespace false extras =
    Ok (namespace, extras ++ l).
Proof.
  induction l as [|a l IH]; intros namespace extras; simpl.
  - by rewrite app_nil_r.
  - rewrite IH. by rewrite <- app_assoc.
Qed.

Lemma predict_shell_plain (args : list string) :
  Forall (fun a => plain a = true) args ->
  predict_shell args = Ok (match args with [] => false | _ => true end).
Proof.
  intros Hplain. unfold predict_shell, parse_known_args.
  rewrite (classify_plain args Hplain).
  destruct args as [|a l]; [done|]. simpl.
  assert (Hvalue : _get_values [a] = VStr a).
  { unfold _get_values. simpl.
    by rewrite (plain_not_dashes a (Forall_inv Hplain)). }
  destruct l as [|a' l]; simpl.
  - unfold take_filename. by rewrite Hvalue.
  - rewrite parse_from_extras. simpl. by rewrite Hvalue.
Qed.

(** C4. On a tail whose strings do not start with [-], [predict_shell]
    returns, true exactly when the tail is not empty; a [-c] with a value
    gives true, and an option that the parser does not know is left aside.
    The parser owns [-h] and [--help]: on these the predictor does not
    return, the help action exits. *)
Theorem predict_shell_cases :
  (forall args : list string,
     Forall (fun a => plain a = true) args ->
     predict_shell args = Ok (match args with [] => false | _ => true end)) /\
  predict_shell ["-c"; "echo hi"] = Ok true /\
  predict_shell ["-x"] = Ok false /\
  predict_shell ["-x"; "script.sh"; "arg"] = Ok true /\
  predict_shell ["--help"] = Raise (SystemExit 0) /\
  predict_shell ["-h"] = Raise (SystemExit 0).
Proof.
  split; [apply predict_shell_plain|]. repeat split; reflexivity.
Qed.

(** ** The claims on concrete inputs *)

(** On Windows both directories of the search path hold [foo.exe], the
    current directory holds a file [FOO.EXE], and [locate_binary] of
    [foo.exe] on a fresh cache returns the local file, not the one of the
    first directory. *)
Lemma local_file_beats_search_path :
  "foo.exe" ∈ executables_in (nt_fs true) "C:\bin" /\
  "foo.exe" ∈ executables_in (nt_fs true) "C:\tools" /\
  PATH (nt_builtins []) = ["C:\bin"; "C:\tools"] /\
  @rebuilds windows (nt_fs true) (nt_builtins []) init = true /\
  fst (@locate_binary windows (nt_fs true) (nt_builtins []) init "foo.exe")
    = Ok (Some "C:\cwd\FOO.EXE") /\
  @os_path_join windows "C:\bin" "foo.exe" = "C:\bin\foo.exe".
Proof.
  split; [left|]. split; [left|]. repeat split; vm_compute; reflexivity.
Qed.

(** On POSIX, with [/a] before [/b] and [foo] in both, a fresh cache locates
    [foo] in [/a]. *)
Lemma first_directory_wins_posix :
  fst (@locate_binary posix posix_fs posix_builtins init "foo")
    = Ok (Some "/a/foo").
Proof.
  destruct (@first_directory_wins posix posix_fs posix_builtins init)
    as (_ & Hlocate & _).
  destruct (Hlocate "/a" ["/b"] "foo") as (c & _ & _ & Hc & Hres).
  - reflexivity.
  - left.
  - discriminate.
  - vm_compute. reflexivity.
  - discriminate.
  - discriminate.
  - rewrite (Hc eq_refl) in Hres. exact Hres.
Defined.

(** A first validating operation on POSIX returns, and a second one keeps
    the cache. *)
Lemma all_commands_validity_posix :
  @all_commands posix posix_fs posix_builtins init
    = (Ok (@rebuild posix posix_fs posix_builtins),
       snd (@all_commands posix posix_fs posix_builtins init)) /\
  _cmds_cache (snd (@all_commands posix posix_fs posix_builtins init))
    = @rebuild posix posix_fs posix_builtins /\
  @rebuilds posix posix_fs posix_builtins
    (snd (@all_commands posix posix_fs posix_builtins init)) = false /\
  @all_commands posix posix_fs posix_builtins
    (snd (@all_commands posix posix_fs posix_builtins init))
    = (Ok (@rebuild posix posix_fs posix_builtins),
       snd (@all_commands posix posix_fs posix_builtins init)).
Proof.
  assert (Hrun : @all_commands posix posix_fs posix_builtins init
    = (Ok (@rebuild posix posix_fs posix_builtins),
       snd (@all_commands posix posix_fs posix_builtins init)))
    by reflexivity.
  destruct (@all_commands_validity posix posix_fs posix_builtins init _ _ Hrun)
    as (max_mtime & _ & _ & _ & Hstale & _ & Hkeep & Hagain & _).
  split; [exact Hrun|]. split; [|split; [exact Hkeep|exact Hagain]].
  apply Hstale. reflexivity.
Defined.

(** On POSIX [vi] is on the search path with no alias, and is predicted to
    need the foreground. *)
Lemma vi_on_posix_predicted_false :
  _cmds_cache (snd (@all_commands posix posix_fs posix_builtins init)) !! "vi"
    = Some (Some "/b/vi", false) /\
  @predict_backgroundable posix posix_builtins
     (snd (@all_commands posix posix_fs posix_builtins init))
     ["vi"; "file.txt"] = Ok false.
Proof.
  assert (Hvi :
    _cmds_cache (snd (@all_commands posix posix_fs posix_builtins init)) !! "vi"
      = Some (Some "/b/vi", false)) by (vm_compute; reflexivity).
  split; [exact Hvi|].
  destruct predict_backgroundable_spec as (_ & _ & _ & _ & Hex & _).
  apply (Hex posix_builtins _ "/b/vi" ["file.txt"]); [reflexivity|exact Hvi].
Defined.


(** The alias [myalias] has no executable: its entry has no path, and its
    flag is set. *)
Lemma entries_have_path_or_alias_posix :
  @rebuilds posix posix_fs posix_builtins init = true /\
  _cmds_cache (snd (@all_commands posix posix_fs posix_builtins init))
    !! "myalias" = Some (None, true) /\
  true = true.
Proof.
  assert (Hre : @rebuilds posix posix_fs posix_builtins init = true)
    by (vm_compute; reflexivity).
  assert (Hlook :
    _cmds_cache (snd (@all_commands posix posix_fs posix_builtins init))
      !! "myalias" = Some (None, true)) by (vm_compute; reflexivity).
  split; [exact Hre|]. split; [exact Hlook|].
  exact (@entries_have_path_or_alias posix posix_fs posix_builtins init
           "myalias" None true Hre Hlook eq_refl).
Defined.

(** With an empty search path and no alias the first validating operation
    rebuilds and publishes the empty map, and [is_empty] is still true. *)
Lemma is_empty_after_rebuild :
  @rebuilds posix posix_fs empty_builtins init = true /\
  fst (@all_commands posix posix_fs empty_builtins init) = Ok ∅ /\
  is_empty (snd (@all_commands posix posix_fs empty_builtins init)) = true.
Proof. repeat split; vm_compute; reflexivity. Qed.

(** After the rebuild on the POSIX search path [is_empty] is false. *)
Lemma is_empty_spec_posix :
  is_empty (snd (@all_commands posix posix_fs posix_builtins init)) = false.
Proof.
  destruct (@is_empty_spec posix posix_fs posix_builtins init)
    as (_ & _ & Hiff).
  assert (Hre : @rebuilds posix posix_fs posix_builtins init = true)
    by (vm_compute; reflexivity).
  destruct (Hiff Hre) as [Hfwd _].
  destruct (is_empty (snd (@all_commands posix posix_fs posix_builtins init)));
    [|reflexivity].
  assert (Hfoo : @rebuild posix posix_fs posix_builtins !! "foo"
                 = Some (Some "/a/foo", false)) by (vm_compute; reflexivity).
  rewrite (Hfwd eq_refl), lookup_empty in Hfoo. discriminate Hfoo.
Defined.

(** [/usr/bin/ls] is looked up as [ls]: the lazy lookups agree, and on a
    fresh cache [__contains__] is true and [__getitem__] gives the entry of
    [ls]; [/usr/bin/cat] is not contained, as [cat] is no key. *)
Lemma lookup_by_basename_posix :
  posix_basename "/usr/bin/ls" = "ls" /\
  @lazyget posix posix_builtins
     (snd (@all_commands posix posix_fs posix_builtins init))
     (Some "/usr/bin/ls")
  = @lazyget posix posix_builtins
     (snd (@all_commands posix posix_fs posix_builtins init)) (Some "ls") /\
  @lazyin posix posix_builtins
     (snd (@all_commands posix posix_fs posix_builtins init))
     (Some "/usr/bin/ls") = true /\
  fst (@contains posix posix_fs posix_builtins init (Some "/usr/bin/ls"))
    = Ok true /\
  fst (@getitem posix posix_fs posix_builtins init (Some "/usr/bin/ls"))
    = Ok (Some (Some "/a/ls", true)) /\
  fst (@contains posix posix_fs posix_builtins init (Some "/usr/bin/cat"))
    = Ok false.
Proof.
  split; [reflexivity|].
  destruct (@lookup_by_basename posix posix_fs posix_builtins
              (snd (@all_commands posix posix_fs posix_builtins init))
              "/usr/bin/ls" eq_refl) as (Hget & _ & _ & _ & Hin & _).
  split; [exact Hget|].
  split; [apply Hin; exists "ls"; split; [left|]; vm_compute; eauto|].
  assert (Hfst : fst (@all_commands posix posix_fs posix_builtins init)
                 = Ok (@rebuild posix posix_fs posix_builtins))
    by reflexivity.
  destruct (@all_commands posix posix_fs posix_builtins init) as [r self']
    eqn:Hrun.
  simpl in Hfst. subst r.
  destruct (@lookup_by_basename posix posix_fs posix_builtins init
              "/usr/bin/ls" eq_refl)
    as (_ & _ & _ & _ & _ & _ & _ & Hls & _).
  destruct (Hls _ _ Hrun) as (_ & _ & _ & Hhas & _ & Hoff).
  destruct (Hoff eq_refl) as [_ Hitem].
  destruct (@lookup_by_basename posix posix_fs posix_builtins init
              "/usr/bin/cat" eq_refl)
    as (_ & _ & _ & _ & _ & _ & _ & Hcat & _).
  destruct (Hcat _ _ Hrun) as (_ & _ & _ & _ & _ & Hoff').
  destruct (Hoff' eq_refl) as [Hno _].
  split; [|split].
  - assert (Hyes : @contains posix posix_fs posix_builtins init
                     (Some "/usr/bin/ls") = (Ok true, self')).
    { apply Hhas. exists "ls". split; [left|]. vm_compute. eauto. }
    by rewrite Hyes.
  - rewrite Hitem. vm_compute. reflexivity.
  - rewrite Hno. vm_compute. reflexivity.
Defined.

(** ** Further properties of the rebuilt map *)

Lemma scan_dir_is_Some `{pl : Platform} alss path cmds m k :
  is_Some (m !! k) -> is_Some (scan_dir alss path m cmds !! k).
Proof.
  intros Hm.
  destruct (decide (Exists (fun c => cmd_key c = k) cmds)) as [Hex|Hno].
  - apply Exists_exists in Hex.
    destruct (scan_dir_lookup_found alss path cmds m k Hex) as (c & _ & _ & ->).
    eauto.
  - rewrite scan_dir_lookup_other; [done|].
    intros c Hc Hk. apply Hno, Exists_exists. eauto.
Qed.

Lemma scan_paths_is_Some `{pl : Platform} fs alss paths d c :
  d ∈ paths -> c ∈ executables_in fs d ->
  is_Some (scan_paths fs alss paths !! cmd_key c).
Proof.
  induction paths as [|p paths IH]; intros Hd Hc.
  - by apply elem_of_nil in Hd.
  - rewrite scan_paths_cons. apply elem_of_cons in Hd as [->|Hd].
    + destruct (scan_dir_lookup_found alss p (executables_in fs p)
                  (scan_paths fs alss paths) (cmd_key c)) as (c' & _ & _ & ->);
        eauto.
    + by apply scan_dir_is_Some, IH.
Qed.

Lemma add_aliases_lookup_inv `{pl : Platform} alss : forall m k e,
  add_aliases alss m !! k = Some e ->
  m !! k = Some e \/
  (e = (None, true) /\ exists a, a ∈ alss /\ cmd_key a = k).
Proof.
  induction alss as [|a alss IH]; intros m k e Hlook; [by left|].
  rewrite add_aliases_cons in Hlook.
  destruct (IH _ _ _ Hlook) as [Hm|(-> & a' & Ha' & Hk)].
  - destruct (m !! a) eqn:Hma; [by left|].
    destruct (decide (cmd_key a = k)) as [Heq|Hne].
    + rewrite Heq, lookup_insert_eq in Hm. injection Hm as <-.
      right. split; [done|]. exists a. split; [left|done].
    + rewrite lookup_insert_ne in Hm by done. by left.
  - right. split; [done|]. exists a'. split; [by right|done].
Qed.

Lemma find_split {A : Type} (f : A -> bool) (l : list A) (x : A) :
  List.find f l = Some x ->
  f x = true /\
  exists pre post, l = pre ++ x :: post /\ forall y, y ∈ pre -> f y = false.
Proof.
  induction l as [|y l IH]; [done|]. simpl.
  destruct (f y) eqn:Hy.
  - intros [= ->]. split; [done|]. exists [], l. split; [done|].
    intros z Hz. by apply elem_of_nil in Hz.
  - intros Hfind. destruct (IH Hfind) as (Hx & pre & post & -> & Hpre).
    split; [done|]. exists (y :: pre), post. split; [done|].
    intros z Hz. apply elem_of_cons in Hz as [->|Hz]; [done|by apply Hpre].
Qed.

(** Every executable of a directory of the search path has its key in the
    rebuilt map; every key of the rebuilt map is the key of such an
    executable or of an alias; and an entry with a path holds the path of
    such an executable, joined to its directory, with the flag that tells
    whether the file name is an alias. *)
Theorem rebuild_keys_and_paths `{pl : Platform} (fs : FileSystem)
    (b : Builtins) (k : string) :
  (forall d c, d ∈ PATH b -> c ∈ executables_in fs d ->
     is_Some (rebuild fs b !! cmd_key c)) /\
  (is_Some (rebuild fs b !! k) ->
     (exists d c, d ∈ PATH b /\ c ∈ executables_in fs d /\ cmd_key c = k) \/
     (exists a, a ∈ aliases b /\ cmd_key a = k)) /\
  (forall p has_alias, rebuild fs b !! k = Some (Some p, has_alias) ->
     exists d c, d ∈ PATH b /\ c ∈ executables_in fs d /\ cmd_key c = k /\
       p = os_path_join d c /\ has_alias = bool_decide (c ∈ aliases b)).
Proof.
  split; [|split].
  - intros d c Hd Hc. unfold rebuild.
    by apply add_aliases_is_Some, (scan_paths_is_Some fs _ _ d).
  - intros [e He]. unfold rebuild in He.
    destruct (add_aliases_lookup_inv _ _ _ _ He) as [Hscan|(_ & a & Ha & Hk)].
    + destruct (scan_paths_lookup_inv _ _ _ _ _ Hscan) as (d & c & ? & ? & ? & _).
      left. eauto.
    + right. eauto.
  - intros p has_alias He. unfold rebuild in He.
    destruct (add_aliases_lookup_inv _ _ _ _ He) as [Hscan|(Habs & _)].
    + destruct (scan_paths_lookup_inv _ _ _ _ _ Hscan)
        as (d & c & ? & ? & ? & Heq).
      injection Heq as -> ->. exists d, c. done.
    + discriminate Habs.
Qed.

(** Off Windows a rebuild is first match wins, then the aliases: the entry
    of a name is the path in the first directory of the search path that
    holds an executable of this name, flagged when the name is an alias; a
    name that no directory holds has the entry [(None, True)] when it is an
    alias, and no entry otherwise. *)
Theorem rebuild_lookup_off_windows `{pl : Platform} (fs : FileSystem)
    (b : Builtins) (k : string) :
  ON_WINDOWS = false ->
  rebuild fs b !! k =
    match List.find (fun d => bool_decide (k ∈ executables_in fs d)) (PATH b) with
    | Some d => Some (Some (os_path_join d k), bool_decide (k ∈ aliases b))
    | None => if bool_decide (k ∈ aliases b) then Some (None, true) else None
    end.
Proof.
  intros Hw.
  assert (Hkey : forall c, cmd_key c = c)
    by (intros c; unfold cmd_key; by rewrite Hw).
  unfold rebuild.
  destruct (List.find _ (PATH b)) as [d|] eqn:Hfind.
  - apply find_split in Hfind as (Hd & pre & post & -> & Hpre).
    apply bool_decide_eq_true in Hd.
    destruct (scan_paths_first fs (aliases b) pre d post k)
      as (c & _ & Hc & Hscan).
    { intros p c Hp Hc. rewrite Hkey. intros ->.
      apply Hpre in Hp. by apply bool_decide_eq_false in Hp. }
    { exists k. by rewrite Hkey. }
    rewrite Hkey in Hc. subst c.
    apply add_aliases_keeps; [|done]. intros a _. by rewrite Hkey.
  - assert (Hscan : scan_paths fs (aliases b) (PATH b) !! k = None).
    { apply scan_paths_absent. intros p c Hp Hc. rewrite Hkey. intros ->.
      apply list_elem_of_In in Hp.
      pose proof (find_none _ _ Hfind _ Hp) as Hnone. simpl in Hnone.
      by apply bool_decide_eq_false in Hnone. }
    destruct (bool_decide (k ∈ aliases b)) eqn:Hal.
    + apply bool_decide_eq_true in Hal. by apply add_aliases_adds.
    + apply bool_decide_eq_false in Hal.
      rewrite add_aliases_lookup_other; [done|].
      intros a Ha. rewrite Hkey. by intros ->.
Qed.

(** On the POSIX sample: [foo] is in [/a] and [/b], [myalias] is only an
    alias, and [nothing] is neither. *)
Lemma rebuild_lookup_posix :
  @rebuild posix posix_fs posix_builtins !! "foo" = Some (Some "/a/foo", false) /\
  @rebuild posix posix_fs posix_builtins !! "myalias" = Some (None, true) /\
  @rebuild posix posix_fs posix_builtins !! "nothing" = None.
Proof.
  split; [|split].
  - exact (@rebuild_lookup_off_windows posix posix_fs posix_builtins "foo" eq_refl).
  - exact (@rebuild_lookup_off_windows posix posix_fs posix_builtins "myalias"
             eq_refl).
  - exact (@rebuild_lookup_off_windows posix posix_fs posix_builtins "nothing"
             eq_refl).
Defined.

(** ** Further properties of the validation *)

Lemma all_commands_returns_inv `{pl : Platform} (fs : FileSystem)
    (b : Builtins) (self self' : CommandsCache) (m : gmap string entry) :
  all_commands fs b self = (Ok m, self') ->
  exists max_mtime,
    max_mtime_loop fs (elements (pathset fs (PATH b))) 0 = Ok max_mtime /\
    m = (if rebuilds fs b self then rebuild fs b else _cmds_cache self) /\
    self' =
      {| _cmds_cache := m;
         _path_checksum := Some (hash (pathset fs (PATH b)));
         _alias_checksum := Some (hash (list_to_set (aliases b)));
         _path_mtime := max_mtime;
         backgroundable_predictors := backgroundable_predictors self |}.
Proof.
  intros Hrun.
  destruct (max_mtime_loop fs (elements (pathset fs (PATH b))) 0)
    as [mt|e] eqn:Hloop.
  - rewrite (all_commands_returns fs b self mt Hloop) in Hrun.
    injection Hrun as <- <-. eauto.
  - rewrite (all_commands_raises fs b self e Hloop) in Hrun. discriminate.
Qed.

Lemma rebuilds_negb_valid `{pl : Platform} (fs : FileSystem) (b : Builtins)
    (self : CommandsCache) (max_mtime : Z) :
  max_mtime_loop fs (elements (pathset fs (PATH b))) 0 = Ok max_mtime ->
  rebuilds fs b self =
    negb (cache_valid self (hash (pathset fs (PATH b)))
            (hash (list_to_set (aliases b))) max_mtime).
Proof. intros Hloop. unfold rebuilds. by rewrite Hloop. Qed.

Lemma stat_all_ok `{pl : Platform} (fs : FileSystem) (b : Builtins) :
  (forall p, p ∈ PATH b -> isdir fs p = true -> is_Some (st_mtime fs p)) ->
  exists max_mtime,
    max_mtime_loop fs (elements (pathset fs (PATH b))) 0 = Ok max_mtime.
Proof.
  intros Hstat. apply max_mtime_loop_ok. intros p Hp.
  apply elem_of_elements, elem_of_pathset in Hp as [Hp Hdir]. by apply Hstat.
Qed.

Lemma all_commands_rebuilt `{pl : Platform} (fs : FileSystem) (b : Builtins)
    (self : CommandsCache) :
  rebuilds fs b self = true ->
  fst (all_commands fs b self) = Ok (rebuild fs b) /\
  _cmds_cache (snd (all_commands fs b self)) = rebuild fs b.
Proof.
  intros Hre. destruct (rebuilds_stat fs b self Hre) as [mt Hloop].
  by rewrite (all_commands_returns fs b self mt Hloop), Hre.
Qed.

(** The first validating operation on a cache that [__init__] has just made
    scans the search path, whatever the environment is, as long as every
    [os.stat] succeeds: it returns and stores the rebuilt map. *)
Theorem fresh_cache_rebuilds `{pl : Platform} (fs : FileSystem) (b : Builtins) :
  (forall p, p ∈ PATH b -> isdir fs p = true -> is_Some (st_mtime fs p)) ->
  fst (all_commands fs b init) = Ok (rebuild fs b) /\
  _cmds_cache (snd (all_commands fs b init)) = rebuild fs b.
Proof.
  intros Hstat. destruct (stat_all_ok fs b Hstat) as [mt Hloop].
  apply all_commands_rebuilt. by rewrite (rebuilds_negb_valid fs b init mt Hloop).
Qed.

Lemma fresh_cache_rebuilds_posix :
  fst (@all_commands posix posix_fs posix_builtins init)
    = Ok (@rebuild posix posix_fs posix_builtins).
Proof.
  apply (@fresh_cache_rebuilds posix posix_fs posix_builtins).
  intros p _ Hdir. simpl in Hdir. simpl.
  destruct (String.eqb p "/a"); [eauto|].
  destruct (String.eqb p "/b"); [eauto|discriminate].
Defined.

(** A directory of the search path whose modification time is greater than
    the stored one forces a rebuild: the validating operation returns and
    stores the rebuilt map, and the stored time is then at least the time of
    this directory. *)
Theorem newer_directory_forces_rebuild `{pl : Platform} (fs : FileSystem)
    (b : Builtins) (self : CommandsCache) (p : string) (t : Z) :
  (forall q, q ∈ PATH b -> isdir fs q = true -> is_Some (st_mtime fs q)) ->
  p ∈ PATH b ->
  isdir fs p = true ->
  st_mtime fs p = Some t ->
  _path_mtime self < t ->
  fst (all_commands fs b self) = Ok (rebuild fs b) /\
  _cmds_cache (snd (all_commands fs b self)) = rebuild fs b /\
  t <= _path_mtime (snd (all_commands fs b self)).
Proof.
  intros Hstat Hp Hdir Ht Hnew. destruct (stat_all_ok fs b Hstat) as [mt Hloop].
  destruct (max_mtime_loop_max fs _ _ _ Hloop) as (_ & Hall & _).
  destruct (Hall p) as (t' & Ht' & Hle).
  { by apply elem_of_elements, elem_of_pathset. }
  assert (t' = t) as -> by congruence.
  assert (Hre : rebuilds fs b self = true).
  { rewrite (rebuilds_negb_valid fs b self mt Hloop). apply negb_true_iff.
    destruct (cache_valid _ _ _ _) eqn:Hv; [|done].
    apply cache_valid_iff in Hv as (_ & _ & Hv). lia. }
  destruct (all_commands_rebuilt fs b self Hre) as [Hres Hcache].
  split; [done|]. split; [done|].
  by rewrite (all_commands_returns fs b self mt Hloop).
Qed.

(** The cache was built when only [/b] was on the search path, with time 3;
    [/a] has time 5. *)
Lemma newer_directory_forces_rebuild_posix :
  fst (@all_commands posix posix_fs (posix_builtins_at ["/a"; "/b"])
         (snd (@all_commands posix posix_fs (posix_builtins_at ["/b"]) init)))
    = Ok (@rebuild posix posix_fs (posix_builtins_at ["/a"; "/b"])).
Proof.
  apply (@newer_directory_forces_rebuild posix posix_fs
           (posix_builtins_at ["/a"; "/b"])
           (snd (@all_commands posix posix_fs (posix_builtins_at ["/b"]) init))
           "/a" 5).
  - intros q _ Hdir. simpl in Hdir. simpl.
    destruct (String.eqb q "/a"); [eauto|].
    destruct (String.eqb q "/b"); [eauto|discriminate].
  - left.
  - reflexivity.
  - reflexivity.
  - vm_compute. reflexivity.
Defined.

(** Validity looks at the search path and at the aliases as sets: after a
    validating operation that returned, the same operation on an environment
    whose search path holds the same directories, in any order and number,
    and whose aliases are the same names, keeps the cache and returns the
    same map, so the stored precedence is the one of the old order. *)
Theorem validity_ignores_order `{pl : Platform} (fs : FileSystem)
    (b b' : Builtins) (self self' : CommandsCache) (m : gmap string entry) :
  all_commands fs b self = (Ok m, self') ->
  (forall p, p ∈ PATH b' <-> p ∈ PATH b) ->
  (forall a, a ∈ aliases b' <-> a ∈ aliases b) ->
  rebuilds fs b' self' = false /\
  all_commands fs b' self' = (Ok m, self').
Proof.
  intros Hrun Hpath Hal.
  destruct (all_commands_returns_inv fs b self self' m Hrun)
    as (mt & Hloop & _ & Hself).
  assert (Hset : pathset fs (PATH b') = pathset fs (PATH b)).
  { apply set_eq. intros p. rewrite !elem_of_pathset, Hpath. done. }
  assert (Hals : list_to_set (aliases b') =@{gset string} list_to_set (aliases b)).
  { apply set_eq. intros a. rewrite !elem_of_list_to_set. apply Hal. }
  assert (Hloop' :
    max_mtime_loop fs (elements (pathset fs (PATH b'))) 0 = Ok mt)
    by (by rewrite Hset).
  assert (Hkeep : rebuilds fs b' self' = false).
  { rewrite (rebuilds_negb_valid fs b' self' mt Hloop'). apply negb_false_iff.
    apply cache_valid_iff. rewrite Hset, Hals, Hself. simpl.
    split; [done|]. split; [done|lia]. }
  split; [done|].
  rewrite (all_commands_returns fs b' self' mt Hloop'), Hkeep, Hset, Hals.
  rewrite Hself. reflexivity.
Qed.

(** With [/a] before [/b] the cache holds [/a/foo]; with the search path
    turned round the validating operation still returns this map. *)
Lemma validity_ignores_order_posix :
  fst (@all_commands posix posix_fs (posix_builtins_at ["/b"; "/a"])
         (snd (@all_commands posix posix_fs (posix_builtins_at ["/a"; "/b"]) init)))
    = Ok (@rebuild posix posix_fs (posix_builtins_at ["/a"; "/b"])) /\
  @rebuild posix posix_fs (posix_builtins_at ["/a"; "/b"]) !! "foo"
    = Some (Some "/a/foo", false) /\
  @rebuild posix posix_fs (posix_builtins_at ["/b"; "/a"]) !! "foo"
    = Some (Some "/b/foo", false).
Proof.
  split; [|split; vm_compute; reflexivity].
  assert (Hre : @rebuilds posix posix_fs (posix_builtins_at ["/a"; "/b"]) init
                = true) by (vm_compute; reflexivity).
  destruct (@all_commands_rebuilt posix posix_fs
              (posix_builtins_at ["/a"; "/b"]) init Hre) as [Hres _].
  destruct (@all_commands posix posix_fs (posix_builtins_at ["/a"; "/b"]) init)
    as [r self'] eqn:Hrun.
  simpl in Hres. subst r.
  destruct (@validity_ignores_order posix posix_fs
              (posix_builtins_at ["/a"; "/b"]) (posix_builtins_at ["/b"; "/a"])
              init _ _ Hrun) as [_ Hagain].
  - intros p. simpl. rewrite !elem_of_cons, !elem_of_nil. tauto.
  - done.
  - simpl. by rewrite Hagain.
Defined.

(** A validating operation that raises has already stored the two new
    checksums.  When the next one finds the same directories, can give each
    of them to [os.stat], and finds none newer than the stored time, it keeps
    the cache: it returns the map that was stored before the failure, which
    was not built for this environment. *)
Theorem stale_after_failed_validation `{pl : Platform} (fs1 fs2 : FileSystem)
    (b : Builtins) (self : CommandsCache) (e : exn) (max_mtime : Z) :
  fst (all_commands fs1 b self) = Raise e ->
  (forall p, isdir fs2 p = isdir fs1 p) ->
  max_mtime_loop fs2 (elements (pathset fs2 (PATH b))) 0 = Ok max_mtime ->
  max_mtime <= _path_mtime self ->
  rebuilds fs2 b (snd (all_commands fs1 b self)) = false /\
  fst (all_commands fs2 b (snd (all_commands fs1 b self)))
    = Ok (_cmds_cache self).
Proof.
  intros Hraise Hdir Hloop2 Hle.
  destruct (max_mtime_loop fs1 (elements (pathset fs1 (PATH b))) 0)
    as [mt|e'] eqn:Hloop1.
  { rewrite (all_commands_returns fs1 b self mt Hloop1) in Hraise.
    discriminate. }
  rewrite (all_commands_raises fs1 b self e' Hloop1). simpl.
  assert (Hkeep : rebuilds fs2 b
    {| _cmds_cache := _cmds_cache self;
       _path_checksum := Some (hash (pathset fs1 (PATH b)));
       _alias_checksum := Some (hash (list_to_set (aliases b)));
       _path_mtime := _path_mtime self;
       backgroundable_predictors := backgroundable_predictors self |} = false).
  { rewrite (rebuilds_negb_valid fs2 b _ max_mtime Hloop2).
    apply negb_false_iff, cache_valid_iff. simpl.
    by rewrite (pathset_ext fs1 fs2 _ Hdir). }
  split; [done|].
  by rewrite (all_commands_returns fs2 b _ max_mtime Hloop2), Hkeep.
Qed.

(** The cache is built for the search path [/a].  The search path becomes
    [/b], the first validation fails on [os.stat], and the second one
    returns the map of [/a]. *)
Lemma stale_after_failed_validation_posix :
  fst (@all_commands posix (posix_fs_without "/b") (posix_builtins_at ["/b"])
         (snd (@all_commands posix posix_fs (posix_builtins_at ["/a"]) init)))
    = Raise OSError /\
  fst (@all_commands posix posix_fs (posix_builtins_at ["/b"])
         (snd (@all_commands posix (posix_fs_without "/b")
                 (posix_builtins_at ["/b"])
                 (snd (@all_commands posix posix_fs (posix_builtins_at ["/a"])
                         init)))))
    = Ok (@rebuild posix posix_fs (posix_builtins_at ["/a"])).
Proof.
  assert (Hraise :
    fst (@all_commands posix (posix_fs_without "/b") (posix_builtins_at ["/b"])
           (snd (@all_commands posix posix_fs (posix_builtins_at ["/a"]) init)))
      = Raise OSError) by (vm_compute; reflexivity).
  split; [exact Hraise|].
  destruct (@stale_after_failed_validation posix (posix_fs_without "/b")
              posix_fs (posix_builtins_at ["/b"])
              (snd (@all_commands posix posix_fs (posix_builtins_at ["/a"]) init))
              OSError 3 Hraise) as [_ Hstale].
  - reflexivity.
  - vm_compute. reflexivity.
  - vm_compute. discriminate.
  - rewrite Hstale. vm_compute. reflexivity.
Defined.

(** A first validation that fails does no harm: on a cache that [__init__]
    has just made, after a validating operation that raised, the next one
    whose calls of [os.stat] succeed scans the search path, since the stored
    time is still the negative one of [__init__]. *)
Theorem fresh_cache_recovers `{pl : Platform} (fs1 fs2 : FileSystem)
    (b1 b2 : Builtins) (e : exn) :
  fst (all_commands fs1 b1 init) = Raise e ->
  (forall p, p ∈ PATH b2 -> isdir fs2 p = true -> is_Some (st_mtime fs2 p)) ->
  fst (all_commands fs2 b2 (snd (all_commands fs1 b1 init))) = Ok (rebuild fs2 b2) /\
  _cmds_cache (snd (all_commands fs2 b2 (snd (all_commands fs1 b1 init))))
    = rebuild fs2 b2.
Proof.
  intros Hraise Hstat.
  destruct (max_mtime_loop fs1 (elements (pathset fs1 (PATH b1))) 0)
    as [mt1|e'] eqn:Hloop1.
  { rewrite (all_commands_returns fs1 b1 init mt1 Hloop1) in Hraise.
    discriminate. }
  rewrite (all_commands_raises fs1 b1 init e' Hloop1). simpl.
  destruct (stat_all_ok fs2 b2 Hstat) as [mt Hloop].
  destruct (max_mtime_loop_max fs2 _ _ _ Hloop) as (Hle & _ & _).
  apply all_commands_rebuilt.
  rewrite (rebuilds_negb_valid fs2 b2 _ mt Hloop). apply negb_true_iff.
  destruct (cache_valid _ _ _ _) eqn:Hv; [|done].
  apply cache_valid_iff in Hv as (_ & _ & Hv). simpl in Hv. lia.
Qed.

Lemma fresh_cache_recovers_posix :
  fst (@all_commands posix posix_fs posix_builtins
         (snd (@all_commands posix vanished_fs posix_builtins init)))
    = Ok (@rebuild posix posix_fs posix_builtins).
Proof.
  apply (@fresh_cache_recovers posix vanished_fs posix_fs posix_builtins
           posix_builtins OSError).
  - vm_compute. reflexivity.
  - intros p _ Hdir. simpl in Hdir. simpl.
    destruct (String.eqb p "/a"); [eauto|].
    destruct (String.eqb p "/b"); [eauto|discriminate].
Defined.

(** ** Further properties of the lookups *)

Lemma cached_name_of_key `{pl : Platform} (b : Builtins) (self : CommandsCache)
    (key c : string) :
  pathbasename key = c ->
  is_Some (_cmds_cache self !! cmd_key c) ->
  cached_name b self (Some key) = Some (cmd_key c).
Proof.
  intros Hbase Hin. unfold cached_name. rewrite Hbase.
  unfold cmd_key in *. destruct ON_WINDOWS eqn:Hw; [|done].
  rewrite (get_possible_names_windows b c Hw). simpl.
  unfold in_cache at 1. by rewrite bool_decide_eq_true_2.
Qed.

(** After a validating operation that rebuilds, every executable of a
    directory of the search path is in the cache under each key whose base
    name is the file name, its bare name and its full path among them:
    [__contains__] is true and [__getitem__] returns an entry. *)
Theorem executables_are_contained `{pl : Platform} (fs : FileSystem)
    (b : Builtins) (self : CommandsCache) (d c key : string) :
  rebuilds fs b self = true ->
  d ∈ PATH b ->
  c ∈ executables_in fs d ->
  pathbasename key = c ->
  fst (contains fs b self (Some key)) = Ok true /\
  exists e, fst (getitem fs b self (Some key)) = Ok (Some e).
Proof.
  intros Hre Hd Hc Hbase.
  destruct (rebuilds_stat fs b self Hre) as [mt Hloop].
  assert (Hin : is_Some (rebuild fs b !! cmd_key c)).
  { unfold rebuild. by apply add_aliases_is_Some, (scan_paths_is_Some fs _ _ d). }
  destruct (all_commands_rebuilt fs b self Hre) as [Hres Hcache].
  unfold contains, getitem.
  destruct (all_commands fs b self) as [r self']. simpl in Hres, Hcache.
  subst r. rewrite <- Hcache in Hin.
  pose proof (cached_name_of_key b self' key c Hbase Hin) as Hname.
  cbv beta iota delta [fst bind]. split.
  - unfold lazyin. rewrite Hname. unfold in_cache.
    by rewrite bool_decide_eq_true_2.
  - destruct Hin as [e He]. exists e. unfold lazyget. by rewrite Hname, He.
Qed.

Lemma executables_are_contained_posix :
  fst (@contains posix posix_fs posix_builtins init (Some "/b/vi")) = Ok true.
Proof.
  apply (@executables_are_contained posix posix_fs posix_builtins init
           "/b" "vi" "/b/vi").
  - vm_compute. reflexivity.
  - right. left.
  - right. left.
  - reflexivity.
Defined.

Lemma locate_cached_or_explicit `{pl : Platform} (fs : FileSystem)
    (b : Builtins) (self : CommandsCache) (name p : string) :
  match
    match List.find (in_cache self) (get_possible_names b name) with
    | Some cmd => if truthy cmd then Some cmd else None
    | None => None
    end
  with
  | Some cached =>
      match _cmds_cache self !! cached with
      | Some e => fst e
      | None => None
      end
  | None =>
      if isfile fs name && negb (String.eqb name (os_path_basename name))
      then Some name
      else None
  end = Some p ->
  (exists k has_alias, k ∈ get_possible_names b name /\
     _cmds_cache self !! k = Some (Some p, has_alias)) \/
  (p = name /\ isfile fs name = true /\ name <> os_path_basename name).
Proof.
  assert (Hexplicit :
    (if isfile fs name && negb (String.eqb name (os_path_basename name))
     then Some name else None) = Some p ->
    p = name /\ isfile fs name = true /\ name <> os_path_basename name).
  { destruct (isfile fs name); [|done]. simpl.
    destruct (String.eqb name (os_path_basename name)) eqn:Heq; [done|].
    simpl. intros [= <-]. by apply String.eqb_neq in Heq. }
  destruct (List.find (in_cache self) (get_possible_names b name))
    as [k|] eqn:Hfind; [|by right; apply Hexplicit].
  apply find_some in Hfind as [Hk _].
  destruct (truthy k); [|by right; apply Hexplicit].
  destruct (_cmds_cache self !! k) as [[path al]|] eqn:Hlook; [|done].
  simpl. intros ->. left. exists k, al.
  split; [by apply list_elem_of_In|done].
Qed.

(** A path that [lazy_locate_binary] returns is, on Windows, the absolute
    path of a name variant that is a file of the current directory, or the
    path stored in the cache under one of the name variants, or the name
    itself when it is a file and is not its own base name. *)
Theorem lazy_locate_binary_sound `{pl : Platform} (fs : FileSystem)
    (b : Builtins) (self : CommandsCache) (name p : string) :
  lazy_locate_binary fs b self name = Some p ->
  (ON_WINDOWS = true /\
   exists fn, fn ∈ get_possible_names b name /\ isfile fs fn = true /\
              p = abspath fs fn) \/
  (exists k has_alias, k ∈ get_possible_names b name /\
     _cmds_cache self !! k = Some (Some p, has_alias)) \/
  (p = name /\ isfile fs name = true /\ name <> os_path_basename name).
Proof.
  unfold lazy_locate_binary. intros Hloc.
  destruct ON_WINDOWS eqn:Hw;
    [|by right; apply (locate_cached_or_explicit fs b self name p)].
  destruct (List.find (isfile fs) (get_possible_names b name))
    as [fn|] eqn:Hlocal;
    [|by right; apply (locate_cached_or_explicit fs b self name p)].
  apply find_some in Hlocal as [Hfn Hfile].
  destruct (truthy fn);
    [|by right; apply (locate_cached_or_explicit fs b self name p)].
  injection Hloc as <-. left. split; [done|]. exists fn.
  split; [by apply list_elem_of_In|done].
Qed.

Lemma lazy_locate_binary_sound_posix :
  exists k has_alias,
    k ∈ @get_possible_names posix posix_builtins "foo" /\
    _cmds_cache (snd (@all_commands posix posix_fs posix_builtins init)) !! k
      = Some (Some "/a/foo", has_alias).
Proof.
  destruct (@lazy_locate_binary_sound posix posix_fs posix_builtins
              (snd (@all_commands posix posix_fs posix_builtins init))
              "foo" "/a/foo") as [[Hw _]|[Hcache|(Hname & _)]].
  - vm_compute. reflexivity.
  - discriminate Hw.
  - exact Hcache.
  - discriminate Hname.
Defined.

(** ** Iteration and length *)

Lemma iter_name_is_Some `{pl : Platform} (k : string) (e : entry) :
  entry_ok e -> is_Some (iter_name (k, e)).
Proof.
  destruct e as [path is_alias]. unfold entry_ok, iter_name. simpl.
  intros Hok. destruct (ON_WINDOWS && negb is_alias) eqn:Hw; [|eauto].
  destruct path as [p|]; [eauto|].
  apply andb_true_iff in Hw as [_ Hal]. rewrite Hok in Hal; done.
Qed.

Lemma Forall2_elem_of_r {A B : Type} (R : A -> B -> Prop) (l : list A)
    (k : list B) (y : B) :
  Forall2 R l k -> y ∈ k -> exists x, x ∈ l /\ R x y.
Proof.
  induction 1 as [|x y' l k HR _ IH]; intros Hy.
  - by apply elem_of_nil in Hy.
  - apply elem_of_cons in Hy as [->|Hy].
    + exists x. split; [left|done].
    + destruct (IH Hy) as (x' & Hx' & HR'). exists x'. split; [by right|done].
Qed.

Lemma Forall2_elem_of_l {A B : Type} (R : A -> B -> Prop) (l : list A)
    (k : list B) (x : A) :
  Forall2 R l k -> x ∈ l -> exists y, y ∈ k /\ R x y.
Proof.
  induction 1 as [|x' y l k HR _ IH]; intros Hx.
  - by apply elem_of_nil in Hx.
  - apply elem_of_cons in Hx as [->|Hx].
    + exists y. split; [left|done].
    + destruct (IH Hx) as (y' & Hy' & HR'). exists y'. split; [by right|done].
Qed.

(** After a validating operation that rebuilds, iterating over the cache
    does not fail: every entry without alias has a path to take the base
    name of.  The iteration yields as many names as [__len__] counts.  Off
    Windows the names are the keys of the map.  On Windows, when
    [os.path.basename] undoes [os.path.join], a name is the file name of an
    executable of the search path, as the directory has it, or the key of an
    entry with an alias. *)
Theorem iteration_after_rebuild `{pl : Platform} (fs : FileSystem)
    (b : Builtins) (self : CommandsCache) :
  rebuilds fs b self = true ->
  exists names : list string,
    fst (__iter__ fs b self) = Ok (Some names) /\
    fst (__len__ fs b self) = Ok (length names) /\
    lazylen (snd (all_commands fs b self)) = length names /\
    (forall n, n ∈ lazyiter (snd (all_commands fs b self)) <->
               is_Some (rebuild fs b !! n)) /\
    (ON_WINDOWS = false ->
     forall n, n ∈ names <-> is_Some (rebuild fs b !! n)) /\
    (ON_WINDOWS = true ->
     (forall d c, d ∈ PATH b -> c ∈ executables_in fs d ->
        os_path_basename (os_path_join d c) = c) ->
     forall n, n ∈ names ->
       (exists d c, d ∈ PATH b /\ c ∈ executables_in fs d /\ n = c) \/
       (exists path, rebuild fs b !! n = Some (path, true))).
Proof.
  intros Hre. destruct (all_commands_rebuilt fs b self Hre) as [Hres Hcache].
  unfold __iter__, __len__, lazylen, lazyiter.
  destruct (all_commands fs b self) as [r self']. simpl in Hres, Hcache.
  subst r. cbv beta iota delta [fst snd bind]. rewrite Hcache.
  destruct (mapM iter_name (map_to_list (rebuild fs b))) as [names|] eqn:Hmap.
  2:{ exfalso. apply mapM_None_1, Exists_exists in Hmap
        as ([k e] & Hin & Hnone).
      apply elem_of_map_to_list in Hin.
      destruct (iter_name_is_Some k e) as [n Hn]; [|congruence].
      by apply (rebuild_ok fs b k e). }
  exists names. split; [done|].
  pose proof (mapM_Some_1 _ _ _ Hmap) as Hall.
  assert (Hsize : size (rebuild fs b) = length names).
  { rewrite <- (length_mapM _ _ _ Hmap). symmetry. apply length_map_to_list. }
  split; [by rewrite Hsize|]. split; [done|]. split; [|split].
  - intros n. rewrite list_elem_of_fmap. split.
    + intros ([k e] & -> & Hin). apply elem_of_map_to_list in Hin. simpl. eauto.
    + intros [e He]. exists (n, e). split; [done|].
      by apply elem_of_map_to_list.
  - intros Hw n. split.
    + intros Hn.
      destruct (Forall2_elem_of_r _ _ _ _ Hall Hn) as ([k [path al]] & Hin & Hk).
      apply elem_of_map_to_list in Hin.
      unfold iter_name in Hk. rewrite Hw in Hk. simpl in Hk.
      injection Hk as ->. eauto.
    + intros [[path al] He]. apply elem_of_map_to_list in He.
      destruct (Forall2_elem_of_l _ _ _ _ Hall He) as (n' & Hn' & Hk).
      unfold iter_name in Hk. rewrite Hw in Hk. simpl in Hk.
      by injection Hk as ->.
  - intros Hw Hbase n Hn.
    destruct (Forall2_elem_of_r _ _ _ _ Hall Hn) as ([k [path al]] & Hin & Hk).
    apply elem_of_map_to_list in Hin.
    unfold iter_name in Hk. rewrite Hw in Hk. simpl in Hk.
    destruct al; simpl in Hk.
    + injection Hk as ->. right. eauto.
    + destruct path as [p|]; [|done]. injection Hk as <-.
      unfold rebuild in Hin.
      destruct (add_aliases_lookup_inv _ _ _ _ Hin) as [Hscan|(Habs & _)];
        [|discriminate Habs].
      destruct (scan_paths_lookup_inv _ _ _ _ _ Hscan)
        as (d & c & Hd & Hc & _ & Heq).
      injection Heq as -> _. left. exists d, c. by rewrite Hbase.
Qed.

(** On the POSIX sample the iteration yields the four keys; on the Windows
    sample it yields the file names as the directories have them. *)
Lemma iteration_after_rebuild_samples :
  (exists names : list string,
     fst (@__iter__ posix posix_fs posix_builtins init) = Ok (Some names) /\
     "myalias" ∈ names) /\
  (exists names : list string,
     fst (@__iter__ windows (nt_fs false) (nt_builtins []) init)
       = Ok (Some names) /\
     forall n, n ∈ names -> n = "foo.exe" \/ n = "vi.exe").
Proof.
  split.
  - destruct (@iteration_after_rebuild posix posix_fs posix_builtins init)
      as (names & Hiter & _ & _ & _ & Hkeys & _).
    + vm_compute. reflexivity.
    + exists names. split; [exact Hiter|].
      apply (Hkeys eq_refl). vm_compute. eauto.
  - destruct (@iteration_after_rebuild windows (nt_fs false) (nt_builtins [])
                init) as (names & Hiter & _ & _ & _ & _ & Hnames).
    + vm_compute. reflexivity.
    + exists names. split; [exact Hiter|]. clear Hiter. intros n Hn.
      destruct (Hnames eq_refl) with (n := n)
        as [(d & c & Hd & Hc & ->)|[path Halias]]; [|exact Hn| |].
      * intros d c Hd Hc. simpl in Hd.
        apply elem_of_cons in Hd as [->|Hd].
        { simpl in Hc. apply elem_of_cons in Hc as [->|Hc]; [reflexivity|].
          apply elem_of_cons in Hc as [->|Hc]; [reflexivity|].
          by apply elem_of_nil in Hc. }
        apply elem_of_cons in Hd as [->|Hd]; [|by apply elem_of_nil in Hd].
        simpl in Hc. apply elem_of_cons in Hc as [->|Hc]; [reflexivity|].
        by apply elem_of_nil in Hc.
      * simpl in Hd. apply elem_of_cons in Hd as [->|Hd].
        { simpl in Hc. apply elem_of_cons in Hc as [->|Hc]; [by left|].
          apply elem_of_cons in Hc as [->|Hc]; [by right|].
          by apply elem_of_nil in Hc. }
        apply elem_of_cons in Hd as [->|Hd]; [|by apply elem_of_nil in Hd].
        simpl in Hc. apply elem_of_cons in Hc as [->|Hc]; [by left|].
        by apply elem_of_nil in Hc.
      * exfalso.
        destruct (add_aliases_lookup_inv _ _ _ _ Halias)
          as [Hscan|(_ & a & Ha & _)].
        -- destruct (scan_paths_lookup_inv _ _ _ _ _ Hscan)
             as (d & c & _ & _ & _ & Heq).
           injection Heq as _ Heq. discriminate Heq.
        -- by apply elem_of_nil in Ha.
Defined.

(** ** When the shell predictor returns *)

Lemma parse_optional_single (c1 : ascii) (tl1 : string) :
  Ascii.eqb c1 "-" = false ->
  help_like (String "-" (String c1 tl1)) = false ->
  exists t, _parse_optional (String "-" (String c1 tl1)) = Ok t /\
    forall os e, t <> Some (Some HelpAction, os, e).
Proof.
  intros Hdash Hhelp. unfold help_like in Hhelp.
  destruct c1 as [[] [] [] [] [] [] [] []]; try discriminate Hdash;
    try (destruct tl1; cbn in Hhelp; discriminate Hhelp); clear Hdash Hhelp.
  all: cbn -[negative_number_matcher has_sep].
  all: try (destruct (split_eq tl1) as [[l r]|];
            cbn -[negative_number_matcher has_sep]).
  all: try (repeat match goal with
             | |- context [if ?c then _ else _] => destruct c
             end;
            eexists; (split; [reflexivity|]); intros os e; congruence).
  all: destruct tl1; try destruct l; cbn;
    eexists; (split; [reflexivity|]); intros os e; congruence.
Qed.

Lemma split_eq_double (x : string) :
  split_eq (String "-" (String "-" x)) =
    match split_eq x with
    | Some (l, r) => Some (String "-" (String "-" l), r)
    | None => None
    end.
Proof. cbn. by destruct (split_eq x) as [[l r]|]. Qed.



Lemma lookup_option_spec (a : string) :
  lookup_option a =
    if String.eqb "-h" a then Some HelpAction
    else if String.eqb "--help" a then Some HelpAction
    else if String.eqb "-c" a then Some StoreC
    else None.
Proof.
  unfold lookup_option, option_string_actions. cbn [List.find fst snd].
  destruct (String.eqb "-h" a); [done|].
  destruct (String.eqb "--help" a); [done|].
  by destruct (String.eqb "-c" a).
Qed.

Lemma get_option_tuples_double (x : string) :
  _get_option_tuples (String "-" (String "-" x)) =
    Ok (flat_map (fun oa =>
          if startswith (fst oa) (before_eq (String "-" (String "-" x)))
          then [(Some (snd oa), fst oa,
                 match split_eq (String "-" (String "-" x)) with
                 | Some (_, r) => Some r
                 | None => None
                 end)]
          else [])
        option_string_actions).
Proof.
  unfold _get_option_tuples, before_eq.
  by destruct (split_eq (String "-" (String "-" x))) as [[l r]|].
Qed.

Lemma before_eq_double (x : string) :
  before_eq (String "-" (String "-" x)) = String "-" (String "-" (before_eq x)).
Proof.
  unfold before_eq. rewrite split_eq_double.
  by destruct (split_eq x) as [[l r]|].
Qed.

Lemma parse_optional_dash (c1 : ascii) (tl1 : string) :
  _parse_optional (String "-" (String c1 tl1)) =
    match lookup_option (String "-" (String c1 tl1)) with
    | Some a => Ok (Some (Some a, String "-" (String c1 tl1), None))
    | None =>
        match
          match split_eq (String "-" (String c1 tl1)) with
          | Some (option_string, explicit_arg) =>
              match lookup_option option_string with
              | Some a => Some (Some a, option_string, Some explicit_arg)
              | None => None
              end
          | None => None
          end
        with
        | Some t => Ok (Some t)
        | None =>
            let! option_tuples := _get_option_tuples (String "-" (String c1 tl1)) in
            match option_tuples with
            | _ :: _ :: _ => Raise (SystemExit 2)
            | [t] => Ok (Some t)
            | [] =>
                if negative_number_matcher (String "-" (String c1 tl1))
                then Ok None
                else if has_sep (Ascii.eqb " ") (String "-" (String c1 tl1))
                then Ok None
                else Ok (Some (None, String "-" (String c1 tl1), None))
            end
        end
    end.
Proof. reflexivity. Qed.


Lemma lookup_option_double (y : string) :
  y <> "help" ->
  lookup_option (String "-" (String "-" y)) = None.
Proof.
  intros Hy. rewrite lookup_option_spec.
  destruct (String.eqb_spec "-h" (String "-" (String "-" y))) as [Heq|_];
    [discriminate Heq|].
  destruct (String.eqb_spec "--help" (String "-" (String "-" y))) as [Heq|_].
  { by injection Heq as <-. }
  destruct (String.eqb_spec "-c" (String "-" (String "-" y))) as [Heq|_];
    [discriminate Heq|done].
Qed.

Lemma parse_optional_double (x : string) :
  x <> EmptyString ->
  help_like (String "-" (String "-" x)) = false ->
  exists t, _parse_optional (String "-" (String "-" x)) = Ok t /\
    forall os e, t <> Some (Some HelpAction, os, e).
Proof.
  intros Hx Hhelp. unfold help_like in Hhelp.
  assert (Hpre : startswith "help" (before_eq x) = false).
  { rewrite before_eq_double in Hhelp. destruct x; [done|]. exact Hhelp. }
  clear Hhelp.
  assert (Hbefore : before_eq x <> "help").
  { intros Heq. rewrite Heq in Hpre. discriminate Hpre. }
  assert (Hxne : x <> "help").
  { intros ->. by apply Hbefore. }
  rewrite parse_optional_dash, (lookup_option_double x Hxne).
  rewrite get_option_tuples_double, before_eq_double.
  assert (Hby :
    match split_eq (String "-" (String "-" x)) with
    | Some (option_string, explicit_arg) =>
        match lookup_option option_string with
        | Some a => Some (Some a, option_string, Some explicit_arg)
        | None => None
        end
    | None => None
    end = None).
  { rewrite split_eq_double. unfold before_eq in Hbefore.
    destruct (split_eq x) as [[l r]|]; [|done].
    by rewrite (lookup_option_double l Hbefore). }
  rewrite Hby. unfold option_string_actions. cbn [flat_map fst snd app].
  change (startswith "-h" (String "-" (String "-" (before_eq x)))) with false.
  change (startswith "-c" (String "-" (String "-" (before_eq x)))) with false.
  change (startswith "--help" (String "-" (String "-" (before_eq x))))
    with (startswith "help" (before_eq x)).
  rewrite Hpre. cbn [app bind].
  destruct (negative_number_matcher _); [|destruct (has_sep _ _)];
    eexists; (split; [reflexivity|]); intros os e; congruence.
Qed.

Lemma parse_optional_no_help (a : string) :
  help_like a = false ->
  String.eqb a "--" = false ->
  exists t, _parse_optional a = Ok t /\
    forall os e, t <> Some (Some HelpAction, os, e).
Proof.
  intros Hhelp Hdashes.
  destruct a as [|c0 tl]; [exists None; done|].
  destruct (Ascii.eqb_spec c0 "-") as [->|Hc0].
  2:{ exists None. split; [|done]. unfold _parse_optional.
      apply Ascii.eqb_neq in Hc0. by rewrite Hc0. }
  destruct tl as [|c1 tl1]; [exists None; done|].
  destruct (Ascii.eqb_spec c1 "-") as [->|Hc1].
  - apply parse_optional_double; [|done]. by intros ->.
  - apply parse_optional_single; [|done]. by apply Ascii.eqb_neq.
Qed.

Lemma classify_no_help (args : list string) :
  Forall (fun a => help_like a = false) args ->
  exists items, classify args = Ok items /\
    Forall (fun it : pat * string =>
              forall os e, fst it <> PO (Some HelpAction, os, e)) items.
Proof.
  induction 1 as [|a args Ha _ (items & Hitems & Hall)]; [by exists []|].
  simpl. destruct (String.eqb a "--") eqn:Hdashes.
  - eexists. split; [reflexivity|]. constructor; [done|].
    clear. induction args as [|a' args IH]; constructor; done.
  - destruct (parse_optional_no_help a Ha Hdashes) as (t & -> & Ht).
    rewrite Hitems. eexists. split; [reflexivity|]. constructor; [|done].
    intros os e. destruct t as [t|]; [|done]. simpl. intros [= ->].
    by eapply Ht.
Qed.

Lemma consume_explicit_store (option_string explicit_arg : string)
    (next : option string) :
  consume_explicit StoreC option_string explicit_arg next =
    Ok ([(StoreC, [explicit_arg])], false).
Proof. by destruct explicit_arg. Qed.

Lemma parse_from_no_help (n : nat) : forall items namespace positionals extras,
  (length items <= n)%nat ->
  Forall (fun it : pat * string =>
            forall os e, fst it <> PO (Some HelpAction, os, e)) items ->
  exists r, parse_from items namespace positionals extras = Ok r.
Proof.
  induction n as [|n IH]; intros items namespace positionals extras Hlen Hall.
  { destruct items; [simpl; eauto|simpl in Hlen; lia]. }
  destruct items as [|[p s] rest]; [simpl; eauto|].
  simpl in Hlen. apply Forall_cons in Hall as [Hhead Hrest].
  assert (Hnext : forall namespace' positionals' extras',
    exists r, parse_from rest namespace' positionals' extras' = Ok r)
    by (intros; apply IH; [lia|done]).
  assert (Hskip : forall namespace' positionals' extras',
    exists r, parse_from match rest with _ :: rest' => rest' | [] => rest end
                namespace' positionals' extras' = Ok r).
  { intros. apply IH.
    - destruct rest; simpl in *; lia.
    - destruct rest as [|it rest']; [done|].
      by apply Forall_cons in Hrest as [_ Hrest]. }
  destruct p as [| |[[oa os] oe]].
  - simpl. destruct positionals; [|apply Hnext].
    destruct rest as [|[[| |t] d] rest']; try apply Hnext. apply Hskip.
  - simpl. destruct positionals; [|apply Hnext].
    destruct rest as [|[[| |t] d] rest']; try apply Hnext. apply Hskip.
  - destruct oa as [[]|].
    + exfalso. by eapply (Hhead os oe).
    + destruct oe as [e|].
      * simpl. rewrite consume_explicit_store. simpl. apply Hnext.
      * destruct rest as [|[[| |t] d] rest']; simpl;
          solve [apply Hnext | apply Hskip].
    + simpl. apply Hnext.
Qed.

Lemma parse_known_args_returns (args : list string) :
  Forall (fun a => help_like a = false) args ->
  exists r, parse_known_args args = Ok r.
Proof.
  intros Hargs. unfold parse_known_args.
  destruct (classify_no_help args Hargs) as (items & -> & Hitems). simpl.
  by apply (parse_from_no_help (length items)).
Qed.

(** [predict_shell] returns a prediction on every tail that has no string
    the parser reads as its help option: strings it does not know as options
    are put aside, [-c] with or without a value is taken, and nothing else
    makes the parser exit. *)
Theorem predict_shell_returns (args : list string) :
  Forall (fun a => help_like a = false) args ->
  exists prediction : bool, predict_shell args = Ok prediction.
Proof.
  intros Hargs. unfold predict_shell.
  destruct (parse_known_args_returns args Hargs) as ([ns extras] & ->).
  simpl. destruct (is_None (ns_c ns) && is_None (ns_filename ns)); eauto.
Qed.

Lemma predict_shell_returns_sample :
  exists prediction : bool,
    predict_shell ["-x"; "--login"; "-c=ls"; "--"; "script.sh"] = Ok prediction.
Proof.
  apply predict_shell_returns.
  repeat (constructor; [reflexivity|]). constructor.
Defined.

Lemma default_predictors_cases (n : string) (p : predictor) :
  default_backgroundable_predictors !! n = Some p ->
  p = predict_shell \/ p = predict_false.
Proof.
  unfold default_backgroundable_predictors. intros Hn.
  apply elem_of_list_to_map_2 in Hn.
  repeat (apply elem_of_cons in Hn as [Hn|Hn];
          [injection Hn as _ ->; by (left + right)|]).
  by apply elem_of_nil in Hn.
Qed.

(** With the default predictors, [predict_backgroundable] returns a
    prediction for every command whose arguments have no string that the
    shell parser reads as its help option, whatever the cache holds. *)
Theorem predict_backgroundable_returns `{pl : Platform} (b : Builtins)
    (self : CommandsCache) (cmd0 : string) (args : list string) :
  backgroundable_predictors self = default_backgroundable_predictors ->
  Forall (fun a => help_like a = false) args ->
  exists prediction : bool,
    predict_backgroundable b self (cmd0 :: args) = Ok prediction.
Proof.
  intros Htable Hargs. unfold predict_backgroundable.
  destruct (match lazyget b self (cached_name b self (Some cmd0)) with
            | Some e => e
            | None => (None, false)
            end) as [[path|] [|]]; eauto.
  unfold predictor_for. destruct (cached_name b self (Some cmd0)) as [n|];
    [|unfold predict_true; eauto].
  rewrite Htable.
  destruct (default_backgroundable_predictors !! n) as [p|] eqn:Hn;
    [|unfold predict_true; eauto].
  destruct (default_predictors_cases n p Hn) as [-> | ->].
  - unfold predict_shell.
    destruct (parse_known_args_returns args Hargs) as ([ns extras] & ->).
    simpl. destruct (is_None (ns_c ns) && is_None (ns_filename ns)); eauto.
  - unfold predict_false. eauto.
Qed.

(** [bash] is on the search path with no alias, so its registered predictor
    decides: with a script it is predicted backgroundable, without one it is
    not. *)
Lemma predict_backgroundable_returns_posix :
  @lazyget posix shell_builtins
     (snd (@all_commands posix shell_fs shell_builtins init)) (Some "bash")
    = Some (Some "/bin/bash", false) /\
  (exists prediction : bool,
     @predict_backgroundable posix shell_builtins
        (snd (@all_commands posix shell_fs shell_builtins init))
        ["bash"; "-x"; "script.sh"] = Ok prediction) /\
  @predict_backgroundable posix shell_builtins
     (snd (@all_commands posix shell_fs shell_builtins init))
     ["bash"; "-x"; "script.sh"] = Ok true /\
  @predict_backgroundable posix shell_builtins
     (snd (@all_commands posix shell_fs shell_builtins init))
     ["bash"; "-x"] = Ok false.
Proof.
  split; [vm_compute; reflexivity|].
  split; [|split; vm_compute; reflexivity].
  apply (@predict_backgroundable_returns posix shell_builtins
           (snd (@all_commands posix shell_fs shell_builtins init)) "bash").
  - reflexivity.
  - repeat (constructor; [reflexivity|]). constructor.
Defined.
